(** * Fashion-Scraper: the signal extractors, the enrichment merge and the
      output guard of [webscraper.py] and [server.py], embedded and verified.

    Conventions of the embedding.

    - A Python [str] is a [string]: the sequence of its characters, a
      character outside ASCII being carried as its UTF-8 bytes.  Case mapping
      ([lower], [upper], [title]) and white space ([strip]) are those of
      ASCII, which is where Python and this model agree; the literals of the
      source the functions compare against are all ASCII, apart from the three
      currency signs, which are compared as substrings.
    - What the interpreter's libraries compute from a text is carried beside
      the text: a [url] holds what [urlparse(...).hostname] reports, a
      [markup] holds its JSON-LD blocks as [re.findall] and [json.loads]
      yield them, the enrichment reply comes as the value [json.loads]
      returns for it.
    - A JSON value is a [json]; a Python [dict] is an association list read
      by [dict_get] and written by [dict_set]; [None] is [JNull].
    - A function that can raise returns a [result]. *)

From Stdlib Require Import Bool List ZArith Lia String Ascii DecimalString.
From Stdlib Require Import Sorting.Sorted Sorting.Permutation.
Import ListNotations.

Open Scope list_scope.
Open Scope string_scope.

(* ================================================================== *)
(** * Part I. Definitions                                              *)
(* ================================================================== *)

(* ------------------------------------------------------------------ *)
(** ** Python strings                                                  *)
(* ------------------------------------------------------------------ *)

Definition char_in (lo hi : nat) (c : ascii) : bool :=
  let n := nat_of_ascii c in (lo <=? n)%nat && (n <=? hi)%nat.

(** [str.isspace] on ASCII: TAB, LF, VT, FF, CR, the separators 0x1c..0x1f
    and the space. *)
Definition is_space (c : ascii) : bool := char_in 9 13 c || char_in 28 32 c.

Definition is_upper (c : ascii) : bool := char_in 65 90 c.
Definition is_lower (c : ascii) : bool := char_in 97 122 c.
Definition is_alpha (c : ascii) : bool := is_upper c || is_lower c.
Definition is_digit (c : ascii) : bool := char_in 48 57 c.

Definition lower_char (c : ascii) : ascii :=
  if is_upper c then ascii_of_nat (nat_of_ascii c + 32) else c.

Definition upper_char (c : ascii) : ascii :=
  if is_lower c then ascii_of_nat (nat_of_ascii c - 32) else c.

Fixpoint map_string (f : ascii -> ascii) (s : string) : string :=
  match s with
  | EmptyString => EmptyString
  | String c r => String (f c) (map_string f r)
  end.

(** [s.lower()] and [s.upper()]. *)
Definition lower (s : string) : string := map_string lower_char s.
Definition upper (s : string) : string := map_string upper_char s.

Definition is_empty (s : string) : bool :=
  match s with EmptyString => true | _ => false end.

Fixpoint lstrip (s : string) : string :=
  match s with
  | EmptyString => EmptyString
  | String c r => if is_space c then lstrip r else s
  end.

Fixpoint rstrip (s : string) : string :=
  match s with
  | EmptyString => EmptyString
  | String c r =>
      let r' := rstrip r in
      if is_space c && is_empty r' then EmptyString else String c r'
  end.

(** [s.strip()]. *)
Definition strip (s : string) : string := rstrip (lstrip s).

(** [s.startswith(p)]. *)
Definition startswith (s p : string) : bool := prefix p s.

(** [sub in s]. *)
Fixpoint contains (sub s : string) : bool :=
  prefix sub s ||
  match s with
  | EmptyString => false
  | String _ r => contains sub r
  end.

(** [s.endswith(suf)]. *)
Fixpoint endswith (s suf : string) : bool :=
  (s =? suf) ||
  match s with
  | EmptyString => false
  | String _ r => endswith r suf
  end.

(** [s.replace(old, new)] for a non-empty [old]: the occurrences of [old]
    are found from the left and do not overlap.  [skip] counts the characters
    of an occurrence still to be dropped. *)
Fixpoint replace_go (old new : string) (skip : nat) (s : string) : string :=
  match s with
  | EmptyString => EmptyString
  | String c r =>
      match skip with
      | S k => replace_go old new k r
      | O =>
          if prefix old s
          then new ++ replace_go old new (String.length old - 1) r
          else String c (replace_go old new 0 r)
      end
  end.

Definition replace (old new s : string) : string := replace_go old new 0 s.

(** [s.split(sep)[0]]: the text before the first [sep]. *)
Fixpoint first_segment (sep : ascii) (s : string) : string :=
  match s with
  | EmptyString => EmptyString
  | String c r => if Ascii.eqb c sep then EmptyString else String c (first_segment sep r)
  end.

(** [s.split(sep)[-1]]: the text after the last [sep]. *)
Fixpoint last_segment_go (sep : ascii) (acc s : string) : string :=
  match s with
  | EmptyString => acc
  | String c r =>
      if Ascii.eqb c sep then last_segment_go sep EmptyString r
      else last_segment_go sep (acc ++ String c EmptyString) r
  end.

Definition last_segment (sep : ascii) (s : string) : string :=
  last_segment_go sep EmptyString s.

(** [s.title()]: a letter that follows a letter is lowered, any other letter
    is raised. *)
Fixpoint title_go (prev_cased : bool) (s : string) : string :=
  match s with
  | EmptyString => EmptyString
  | String c r =>
      if is_alpha c
      then String (if prev_cased then lower_char c else upper_char c) (title_go true r)
      else String c (title_go false r)
  end.

Definition title (s : string) : string := title_go false s.

(** [x in xs] for a list (or set) of strings. *)
Definition mem (x : string) (xs : list string) : bool :=
  existsb (String.eqb x) xs.

(** [any(k in s for k in ks)]. *)
Definition any_in (ks : list string) (s : string) : bool :=
  existsb (fun k => contains k s) ks.

(** [re.findall(r"[a-z0-9]+", s)]: the maximal runs of lower-case letters and
    digits, from the left. *)
Definition is_token_char (c : ascii) : bool := is_lower c || is_digit c.

Fixpoint tokens_go (cur : string) (s : string) : list string :=
  match s with
  | EmptyString => if is_empty cur then [] else [cur]
  | String c r =>
      if is_token_char c then tokens_go (cur ++ String c EmptyString) r
      else if is_empty cur then tokens_go EmptyString r
      else cur :: tokens_go EmptyString r
  end.

Definition tokens (s : string) : list string := tokens_go EmptyString s.

(** The double quote, for the patterns that hold one. *)
Definition dq : string := String (ascii_of_nat 34) EmptyString.
Definition sq : string := String (ascii_of_nat 39) EmptyString.
Definition bs : string := String (ascii_of_nat 92) EmptyString.

(* ------------------------------------------------------------------ *)
(** ** JSON values, dictionaries, exceptions                           *)
(* ------------------------------------------------------------------ *)

#[local] Set Warnings "-register-all".

(** What [json.loads] returns.  A float is carried by the text Python prints
    for it; an object by its items in order. *)
Inductive json : Type :=
  | JNull
  | JBool (b : bool)
  | JInt (z : Z)
  | JFloat (repr : string)
  | JStr (s : string)
  | JArr (items : list json)
  | JObj (fields : list (string * json)).

Definition dict : Type := list (string * json).

(** [key in d]. *)
Fixpoint dict_get (k : string) (d : dict) : option json :=
  match d with
  | [] => None
  | (k', v) :: r => if k' =? k then Some v else dict_get k r
  end.

(** [d.get(key)]: [None] when the key is missing. *)
Definition py_get (k : string) (d : dict) : json :=
  match dict_get k d with Some v => v | None => JNull end.

(** [d[key] = v]: the value of a present key is replaced where it stands, a
    new key is added at the end. *)
Fixpoint dict_set (k : string) (v : json) (d : dict) : dict :=
  match d with
  | [] => [(k, v)]
  | (k', v') :: r => if k' =? k then (k', v) :: r else (k', v') :: dict_set k v r
  end.

(** Python's truth value of a JSON value. *)
Definition truthy (v : json) : bool :=
  match v with
  | JNull => false
  | JBool b => b
  | JInt z => negb (z =? 0)%Z
  | JFloat r => negb (mem r ["0.0"; "-0.0"])
  | JStr s => negb (is_empty s)
  | JArr l => match l with [] => false | _ => true end
  | JObj d => match d with [] => false | _ => true end
  end.

Inductive exn : Type := AttributeError | TypeError.

Inductive result (A : Type) : Type :=
  | Ok (a : A)
  | Raise (e : exn).

Arguments Ok {A} a.
Arguments Raise {A} e.

Definition bind {A B : Type} (r : result A) (f : A -> result B) : result B :=
  match r with
  | Ok a => f a
  | Raise e => Raise e
  end.

Notation "x <- r ;; k" := (bind r (fun x => k))
  (at level 61, r at next level, right associativity).

(** A URL with what [urlparse(url).hostname] reports for it. *)
Record url : Type := { href : string; hostname : option string }.

(** [urlparse(url).hostname or ""]. *)
Definition host (u : url) : string :=
  match hostname u with Some h => h | None => EmptyString end.

(** A page's markup with its JSON-LD blocks: for every match of the
    [<script type="application/ld+json">] pattern, what [json.loads] returns
    for it, [None] where both attempts to parse it raise. *)
Record markup : Type := { html : string; ld_json : list (option json) }.

(* ------------------------------------------------------------------ *)
(** ** Brand                                                           *)
(* ------------------------------------------------------------------ *)

(** What is returned for a [brand] value: the [name] of an object, the value
    itself otherwise. *)
Definition brand_value (brand : json) : json :=
  match brand with
  | JObj b => py_get "name" b
  | _ => brand
  end.

(** The loop over a block that is a list: the first item that is an object
    with a [brand] key decides. *)
Fixpoint first_item_brand (items : list json) : option json :=
  match items with
  | [] => None
  | JObj d :: rest =>
      match dict_get "brand" d with
      | Some brand => Some (brand_value brand)
      | None => first_item_brand rest
      end
  | _ :: rest => first_item_brand rest
  end.

Fixpoint extract_brand_from_jsonld (blocks : list (option json)) : json :=
  match blocks with
  | [] => JNull
  | None :: rest => extract_brand_from_jsonld rest
  | Some (JObj d) :: rest =>
      let brand := py_get "brand" d in
      if truthy brand then brand_value brand
      else extract_brand_from_jsonld rest
  | Some (JArr items) :: rest =>
      match first_item_brand items with
      | Some v => v
      | None => extract_brand_from_jsonld rest
      end
  | Some _ :: rest => extract_brand_from_jsonld rest
  end.

(** The removal of the fragments [uk], [us], [eu], [co], [shop], in that
    order, from the first label of the host. *)
Definition strip_fragments (first : string) : string :=
  replace "shop" "" (replace "co" "" (replace "eu" "" (replace "us" "" (replace "uk" "" first)))).

Definition domain_label (u : url) : string :=
  let domain := host u in
  let domain := replace "www." "" domain in
  strip_fragments (first_segment "." domain).

(** [brand.strip()] exists for a string only. *)
Definition detect_brand (u : url) (m : markup) : result string :=
  let brand := extract_brand_from_jsonld (ld_json m) in
  if truthy brand then
    match brand with
    | JStr s => Ok (strip s)
    | _ => Raise AttributeError
    end
  else Ok (title (strip (domain_label u))).

(* ------------------------------------------------------------------ *)
(** ** Price                                                           *)
(* ------------------------------------------------------------------ *)

(** The pieces the price patterns are made of: a literal text, a greedy
    [c*] and [c+] over a character class, one of several literal texts, and
    the two ends of group 1. *)
Inductive rx : Type :=
  | RLit (s : string)
  | RStar (c : ascii -> bool)
  | RPlus (c : ascii -> bool)
  | ROneOf (alts : list string)
  | ROpen
  | RClose.

Fixpoint drop_prefix (p s : string) : option string :=
  match p with
  | EmptyString => Some s
  | String a p' =>
      match s with
      | EmptyString => None
      | String b s' => if Ascii.eqb a b then drop_prefix p' s' else None
      end
  end.

(** Greedy repetition with backtracking: the longest run first, then each
    shorter one, until the rest of the pattern [k] matches. *)
Fixpoint star_try (k : string -> option string) (c : ascii -> bool) (s : string)
  : option string :=
  match s with
  | EmptyString => k s
  | String a r =>
      if c a then
        match star_try k c r with
        | Some g => Some g
        | None => k s
        end
      else k s
  end.

Fixpoint alt_try (k : string -> option string) (alts : list string) (s : string)
  : option string :=
  match alts with
  | [] => None
  | a :: rest =>
      match drop_prefix a s with
      | Some s' =>
          match k s' with
          | Some g => Some g
          | None => alt_try k rest s
          end
      | None => alt_try k rest s
      end
  end.

(** [match_at p gs cap s]: the pattern [p] matched at the start of [s]; [gs]
    is the text from where group 1 opened, [cap] the text of group 1 once it
    closed.  The result is group 1. *)
Fixpoint match_at (p : list rx) (gs cap s : string) {struct p} : option string :=
  match p with
  | [] => Some cap
  | RLit l :: p' =>
      match drop_prefix l s with
      | Some s' => match_at p' gs cap s'
      | None => None
      end
  | RStar c :: p' => star_try (match_at p' gs cap) c s
  | RPlus c :: p' =>
      match s with
      | EmptyString => None
      | String a r => if c a then star_try (match_at p' gs cap) c r else None
      end
  | ROneOf alts :: p' => alt_try (match_at p' gs cap) alts s
  | ROpen :: p' => match_at p' s cap s
  | RClose :: p' =>
      match_at p' gs (substring 0 (String.length gs - String.length s) gs) s
  end.

(** [re.search(p, s)] followed by [m.group(1)]: the leftmost match. *)
Fixpoint search (p : list rx) (s : string) : option string :=
  match match_at p EmptyString EmptyString s with
  | Some g => Some g
  | None =>
      match s with
      | EmptyString => None
      | String _ r => search p r
      end
  end.

Definition not_quote (c : ascii) : bool := negb (Ascii.eqb c (ascii_of_nat 34)).
Definition amount_char (c : ascii) : bool :=
  is_digit c || Ascii.eqb c "." || Ascii.eqb c ",".

(** The pattern of a quoted field: the key in double quotes, [\s*:\s*], and
    in double quotes the group [([^Q]+)], where Q is the double quote. *)
Definition quoted_field (key : string) : list rx :=
  [RLit (dq ++ key ++ dq); RStar is_space; RLit ":"; RStar is_space;
   RLit dq; ROpen; RPlus not_quote; RClose; RLit dq].

Definition patterns : list (list rx) :=
  [ quoted_field "price";
    (* the key price in double quotes, a colon, then \s*([0-9]+\.[0-9]+) *)
    [RLit (dq ++ "price" ++ dq ++ ":"); RStar is_space;
     ROpen; RPlus is_digit; RLit "."; RPlus is_digit; RClose];
    quoted_field "nowPrice";
    quoted_field "salePrice";
    quoted_field "unitPrice";
    quoted_field "currentPrice";
    quoted_field "regularPrice";
    (* the key value in double quotes, \s*:\s*, and in double quotes the
       group: a pound, dollar or euro sign and [0-9\.,]+ *)
    [RLit (dq ++ "value" ++ dq); RStar is_space; RLit ":"; RStar is_space;
     RLit dq; ROpen; ROneOf ["£"; "$"; "€"]; RPlus amount_char; RClose; RLit dq] ].

(** The [for p in patterns] loop. *)
Fixpoint first_match (ps : list (list rx)) (text : string) : option string :=
  match ps with
  | [] => None
  | p :: rest =>
      match search p text with
      | Some g => Some g
      | None => first_match rest text
      end
  end.

(** [repr] of a string: single quotes, unless the text holds one and no
    double quote; the quote and the backslash escaped, control characters
    written as escapes. *)
Definition hex_digit (n : nat) : ascii :=
  if (n <? 10)%nat then ascii_of_nat (48 + n) else ascii_of_nat (87 + n).

Definition repr_char (q : ascii) (c : ascii) : string :=
  let n := nat_of_ascii c in
  if Ascii.eqb c (ascii_of_nat 92) then bs ++ bs
  else if Ascii.eqb c q then bs ++ String q EmptyString
  else if (n =? 9)%nat then bs ++ "t"
  else if (n =? 10)%nat then bs ++ "n"
  else if (n =? 13)%nat then bs ++ "r"
  else if (n <? 32)%nat || (n =? 127)%nat
       then bs ++ "x" ++ String (hex_digit (n / 16)) (String (hex_digit (n mod 16)) EmptyString)
  else String c EmptyString.

Fixpoint repr_chars (q : ascii) (s : string) : string :=
  match s with
  | EmptyString => EmptyString
  | String c r => repr_char q c ++ repr_chars q r
  end.

Definition repr_str (s : string) : string :=
  let q := if contains sq s && negb (contains dq s) then ascii_of_nat 34 else ascii_of_nat 39 in
  String q (repr_chars q s) ++ String q EmptyString.

Fixpoint py_repr (v : json) : string :=
  match v with
  | JNull => "None"
  | JBool true => "True"
  | JBool false => "False"
  | JInt z => NilEmpty.string_of_int (Z.to_int z)
  | JFloat r => r
  | JStr s => repr_str s
  | JArr l => "[" ++ String.concat ", " (map py_repr l) ++ "]"
  | JObj d =>
      "{" ++ String.concat ", "
               (map (fun kv => match kv with (k, x) => repr_str k ++ ": " ++ py_repr x end) d)
          ++ "}"
  end.

(** [str(v)]. *)
Definition py_str (v : json) : string :=
  match v with
  | JStr s => s
  | _ => py_repr v
  end.

(** The local function [read_price]. *)
Definition read_price (obj : json) : option string :=
  match obj with
  | JObj d =>
      match dict_get "offers" d with
      | Some (JObj offers) =>
          match dict_get "price" offers with
          | Some p => Some (py_str p)
          | None => None
          end
      | _ => None
      end
  | _ => None
  end.

(** [if price: return price]: an empty text does not count. *)
Definition found (price : option string) : option string :=
  match price with
  | Some p => if is_empty p then None else Some p
  | None => None
  end.

Fixpoint first_item_price (items : list json) : option string :=
  match items with
  | [] => None
  | item :: rest =>
      match found (read_price item) with
      | Some p => Some p
      | None => first_item_price rest
      end
  end.

Fixpoint offers_price (blocks : list (option json)) : option string :=
  match blocks with
  | [] => None
  | None :: rest => offers_price rest
  | Some (JObj d) :: rest =>
      match found (read_price (JObj d)) with
      | Some p => Some p
      | None => offers_price rest
      end
  | Some (JArr items) :: rest =>
      match first_item_price items with
      | Some p => Some p
      | None => offers_price rest
      end
  | Some _ :: rest => offers_price rest
  end.

Definition extract_price_from_scripts (m : markup) : option string :=
  match first_match patterns (html m) with
  | Some g => Some g
  | None => offers_price (ld_json m)
  end.

(* ------------------------------------------------------------------ *)
(** ** Images                                                          *)
(* ------------------------------------------------------------------ *)

Definition IMAGE_EXTS : list string :=
  [".jpg"; ".jpeg"; ".png"; ".webp"; ".avif"; ".gif"].

Definition IMAGE_BLOCKLIST : list string :=
  [ "visa"; "mastercard"; "maestro"; "amex"; "americanexpress";
    "paypal"; "klarna"; "afterpay"; "clearpay"; "trustpilot";
    "applepay"; "googlepay"; "payment"; "secure";
    "facebook"; "instagram"; "youtube"; "tiktok"; "twitter"; "x-logo";
    "logo"; "sprite"; "icon"; "favicon"; "placeholder"; "noimage";
    "search"; "menu"; "hamburger"; "cart"; "basket"; "bag"; "close";
    "arrow"; "chevron"; "caret"; "scroll"; "slider";
    "banner"; "promo"; "offer"; "ads"; "advert";
    "footer"; "header";
    "flag"; "country-" ].

Definition PRODUCT_KEYWORDS : list string :=
  [ "product"; "pdp"; "gallery"; "image"; "main"; "hero";
    "shoe"; "trainer"; "sneaker"; "boot";
    "jacket"; "coat"; "hoodie"; "tee"; "t-shirt"; "shirt";
    "dress"; "skirt"; "trouser"; "shorts"; "jeans"; "pant";
    "bag"; "cap"; "hat"; "backpack" ].

Definition ASSET_EXTS : list string := [".css"; ".js"; ".json"; ".svg"].

(** One record of what the in-page script returns for an element; the pixel
    measures are taken as integers. *)
Record img_info : Type := {
  src : string;
  width : Z;
  height : Z;
  alt : string;
  className : string;
  inPicture : bool;
  top : Z
}.

(** The tuple [(score, area, src)]. *)
Record candidate : Type := { c_score : Z; c_area : Z; c_src : string }.

(** Protocol-relative URLs are made absolute. *)
Definition normalise (s : string) : string :=
  if startswith s "//" then "https:" ++ s else s.

(** [s.endswith(exts)] for a tuple of suffixes. *)
Definition endswith_any (s : string) (exts : list string) : bool :=
  existsb (endswith s) exts.

(** The filters a normalised source passes before it is looked up in [seen]. *)
Definition passes (s : string) : bool :=
  let s_l := lower s in
  startswith s "http"
  && negb (any_in IMAGE_BLOCKLIST s_l)
  && negb (negb (endswith_any s_l IMAGE_EXTS) && negb (any_in IMAGE_EXTS s_l)
           && any_in ASSET_EXTS s_l).

(** [len(a & b)] for the sets of the tokens [a] and [b]. *)
Definition overlap (a b : list string) : nat :=
  List.length (nodup string_dec (filter (fun t => mem t b) a)).

Definition area_points (area : Z) (hint : bool) : Z :=
  (if 800 * 800 <=? area then 8
   else if 600 * 600 <=? area then 6
   else if 400 * 400 <=? area then 4
   else if 200 * 200 <=? area then 2
   else if hint then 1 else 0)%Z.

Definition points (b : bool) (n : Z) : Z := if b then n else 0%Z.

Definition score_of (info : img_info) (s : string) (slug_tokens title_tokens : list string) : Z :=
  let area := (width info * height info)%Z in
  let alt_hit := any_in PRODUCT_KEYWORDS (lower (alt info)) in
  let cls_hit := any_in PRODUCT_KEYWORDS (lower (className info)) in
  let name_tokens := tokens (lower s) in
  (area_points area (alt_hit || cls_hit)
   + points (inPicture info) 3
   + points alt_hit 2
   + points cls_hit 2
   + points ((-200 <=? top info) && (top info <=? 1600)) 1
   + points (2 <=? overlap name_tokens slug_tokens)%nat 2
   + points (1 <=? overlap name_tokens title_tokens)%nat 1)%Z.

(** One turn of the [for info in img_info] loop over the state
    [(candidates, seen)]. *)
Definition collect_step (slug_tokens title_tokens : list string)
    (st : list candidate * list string) (info : img_info)
  : list candidate * list string :=
  let (candidates, seen) := st in
  if is_empty (src info) then st
  else
    let s := normalise (src info) in
    if negb (passes s) then st
    else if mem s seen then st
    else
      let c := {| c_score := score_of info s slug_tokens title_tokens;
                  c_area := (width info * height info)%Z;
                  c_src := s |} in
      (candidates ++ [c], s :: seen)%list.

Definition slug_tokens_of (u : url) : list string :=
  tokens (lower (last_segment "/" (first_segment "?" (href u)))).

Definition collect (infos : list img_info) (u : url) (title : string) : list candidate :=
  fst (fold_left (collect_step (slug_tokens_of u) (tokens (lower title))) infos ([], [])).

(** The order of the keys [(score, area)]. *)
Definition key_lt (a b : candidate) : bool :=
  (c_score a <? c_score b)%Z
  || ((c_score a =? c_score b)%Z && (c_area a <? c_area b)%Z).

(** [candidates.sort(key=..., reverse=True)]: descending, candidates of equal
    key staying in the order they were found. *)
Fixpoint insert_desc (x : candidate) (l : list candidate) : list candidate :=
  match l with
  | [] => [x]
  | y :: r => if key_lt x y then y :: insert_desc x r else x :: y :: r
  end.

Fixpoint sort_desc (l : list candidate) : list candidate :=
  match l with
  | [] => []
  | x :: r => insert_desc x (sort_desc r)
  end.

(** The candidates kept, in rank order. *)
Definition select (candidates : list candidate) : list candidate :=
  let sorted := sort_desc candidates in
  let positive := filter (fun c => (0 <? c_score c)%Z) sorted in
  match positive with
  | [] => firstn 5 sorted
  | _ => firstn 10 positive
  end.

Definition extract_images_from_page (infos : list img_info) (u : url) (title : string)
  : list string :=
  map c_src (select (collect infos u title)).

(* ------------------------------------------------------------------ *)
(** ** Sizes                                                           *)
(* ------------------------------------------------------------------ *)

Definition VALID_SIZE_WORDS : list string :=
  [ "XXXS"; "XXS"; "XS"; "S"; "M"; "L"; "XL"; "XXL"; "XXXL";
    "3XL"; "4XL"; "5XL";
    "ONE SIZE"; "ONESIZE"; "OS";
    "S/M"; "M/L"; "L/XL" ].

Definition digit_value (c : ascii) : Z := Z.of_nat (nat_of_ascii c - 48).

(** [re.fullmatch(r"\d{2}", t)] and [int(t)]. *)
Definition two_digits (t : string) : option Z :=
  match t with
  | String a (String b EmptyString) =>
      if is_digit a && is_digit b
      then Some (10 * digit_value a + digit_value b)%Z
      else None
  | _ => None
  end.

Definition is_valid_size_token (token : string) : bool :=
  let t := upper (strip token) in
  if is_empty t then false
  else if mem t VALID_SIZE_WORDS then true
  else if mem (replace " " "" t) VALID_SIZE_WORDS then true
  else
    match two_digits t with
    | Some val => (20 <=? val)%Z && (val <=? 60)%Z
    | None => false
    end.

(** [sizes.add(t.strip().upper())] for a list that stands for the set. *)
Definition set_add (x : string) (s : list string) : list string :=
  if mem x s then s else (s ++ [x])%list.

Fixpoint insert_str (x : string) (l : list string) : list string :=
  match l with
  | [] => [x]
  | y :: r => if String.leb x y then x :: y :: r else y :: insert_str x r
  end.

(** [sorted(list(sizes))]. *)
Definition sorted_strings (l : list string) : list string :=
  fold_right insert_str [] l.

(** The size set of [extract_raw_product_data] over the texts its four
    selector loops read, in the order they are read. *)
Definition collect_sizes (texts : list string) : list string :=
  sorted_strings
    (fold_left (fun sizes t =>
                  if is_valid_size_token t then set_add (upper (strip t)) sizes else sizes)
               texts []).

(* ------------------------------------------------------------------ *)
(** ** The enrichment merge                                            *)
(* ------------------------------------------------------------------ *)

Definition ALLOWED_STYLE_TAGS : list string :=
  [ "#streetwear"; "#athleisure"; "#vintageStreet"; "#techwear"; "#minimalist";
    "#loudGraphic"; "#hypebeast"; "#y2k"; "#skater" ].

(** The dictionary [extract_raw_product_data] returns.  A field that the
    page did not give is [None] (or empty, for the lists). *)
Record raw_product : Type := {
  raw_title : option string;
  raw_brand : string;
  raw_price : option string;
  raw_description : option string;
  raw_images : list string;
  raw_sizes : list string;
  raw_url : url
}.

(** [raw.get(k) or ""] for a text field. *)
Definition text_of (o : option string) : string :=
  match o with Some s => s | None => EmptyString end.

Definition JStrs (l : list string) : json := JArr (map JStr l).

(** [if raw.get(k): cleaned[key] = raw[k]] for a text. *)
Definition assert_text (key : string) (v : string) (cleaned : dict) : dict :=
  if is_empty v then cleaned else dict_set key (JStr v) cleaned.

(** The block headed "Hard enforce scraped values" with the image and the
    sizes that follow it. *)
Definition enforce (raw : raw_product) (cleaned : dict) : dict :=
  let cleaned := assert_text "product_name" (text_of (raw_title raw)) cleaned in
  let cleaned := assert_text "brand" (raw_brand raw) cleaned in
  let cleaned := assert_text "price" (text_of (raw_price raw)) cleaned in
  let cleaned := assert_text "product_url" (href (raw_url raw)) cleaned in
  let cleaned :=
    match raw_images raw with
    | [] => cleaned
    | first :: _ => dict_set "image_url" (JStr first) cleaned
    end in
  match raw_sizes raw with
  | [] => cleaned
  | sizes => dict_set "sizes_available" (JStrs sizes) cleaned
  end.

Definition EU_TLDS : list string := [".de"; ".fr"; ".es"; ".it"].

(** The currency read off the price text, then off the host. *)
Definition infer_currency (raw : raw_product) : string :=
  let price_str := text_of (raw_price raw) in
  if contains "€" price_str then "EUR"
  else if contains "$" price_str then "USD"
  else if contains "£" price_str then "GBP"
  else
    let h := host (raw_url raw) in
    if contains ".co.uk" h || endswith h ".uk" then "GBP"
    else if any_in EU_TLDS h then "EUR"
    else "GBP".

Definition fill_currency (raw : raw_product) (cleaned : dict) : dict :=
  if truthy (py_get "currency" cleaned) then cleaned
  else dict_set "currency" (JStr (infer_currency raw)) cleaned.

(** The inner loop [for allowed in ALLOWED_STYLE_TAGS] for one stripped
    tag [t]. *)
Definition match_allowed (t : string) (filtered : list string) : list string :=
  fold_left
    (fun acc allowed =>
       if lower t =? lower allowed
       then (if mem allowed acc then acc else acc ++ [allowed])%list
       else acc)
    ALLOWED_STYLE_TAGS filtered.

(** One turn of [for t in tags]. *)
Definition tag_step (filtered : list string) (t : json) : list string :=
  match t with
  | JStr s => match_allowed (strip s) filtered
  | _ => filtered
  end.

Definition filter_tags (tags : list json) : list string :=
  fold_left tag_step tags [].

(** [cleaned.get("style_tags") or []], filtered when it is a list. *)
Definition filter_style_tags (cleaned : dict) : dict :=
  let v := py_get "style_tags" cleaned in
  let tags := if truthy v then v else JArr [] in
  match tags with
  | JArr l => dict_set "style_tags" (JStrs (filter_tags l)) cleaned
  | _ => cleaned
  end.

(** Whether one of the six assignments of [enforce] is made. *)
Definition asserts_any (raw : raw_product) : bool :=
  negb (is_empty (text_of (raw_title raw)))
  || negb (is_empty (raw_brand raw))
  || negb (is_empty (text_of (raw_price raw)))
  || negb (is_empty (href (raw_url raw)))
  || match raw_images raw with [] => false | _ => true end
  || match raw_sizes raw with [] => false | _ => true end.

(** [clean_product_data] from the reply on: [response] is what [json.loads]
    returns for the reply ([None] when it raises).  A reply that is not an
    object has neither item assignment nor [get]. *)
Definition clean_product_data (raw : raw_product) (response : option json)
  : result (option dict) :=
  match response with
  | None => Ok None
  | Some (JObj cleaned) =>
      Ok (Some (filter_style_tags (fill_currency raw (enforce raw cleaned))))
  | Some _ => Raise (if asserts_any raw then TypeError else AttributeError)
  end.

(* ------------------------------------------------------------------ *)
(** ** The endpoint                                                    *)
(* ------------------------------------------------------------------ *)

Definition VALID_CATEGORY : list string :=
  ["top"; "bottom"; "outerwear"; "footwear"; "full_body"; "accessory"].

Definition VALID_GENDER : list string := ["masculine"; "feminine"; "unisex"].

(** [v not in allowed] for a set of strings: the value is hashed first, and
    a list or a dictionary has no hash. *)
Definition not_in_set (v : json) (allowed : list string) : result bool :=
  match v with
  | JArr _ | JObj _ => Raise TypeError
  | JStr s => Ok (negb (mem s allowed))
  | _ => Ok true
  end.

(** The handler of [/scrape] from the reply on; [now] is the time stamp.
    [None] from the cleaner has no item assignment. *)
Definition scrape (raw : raw_product) (response : option json) (now : string)
  : result dict :=
  cleaned <- clean_product_data raw response ;;
  match cleaned with
  | None => Raise TypeError
  | Some data =>
      let data := dict_set "scraped_at" (JStr now) data in
      let data := dict_set "source_domain" (JStr (host (raw_url raw))) data in
      c <- not_in_set (py_get "category" data) VALID_CATEGORY ;;
      let data := if c then dict_set "category" JNull data else data in
      g <- not_in_set (py_get "gender_target" data) VALID_GENDER ;;
      let data := if g then dict_set "gender_target" JNull data else data in
      Ok data
  end.

(* ------------------------------------------------------------------ *)
(** ** Notions the statements use                                      *)
(* ------------------------------------------------------------------ *)

(** The field [k] of the record a run returned, if it returned one. *)
Definition out_field {E : Type} (k : string) (r : result E) (read : E -> option dict)
  : option json :=
  match r with
  | Ok e => match read e with Some d => dict_get k d | None => None end
  | Raise _ => None
  end.

Definition cleaned_field (k : string) (r : result (option dict)) : option json :=
  out_field k r (fun o => o).

Definition scraped_field (k : string) (r : result dict) : option json :=
  out_field k r (fun d => Some d).

(** The populated ground-truth fields of a raw record, each with the key of
    the cleaned record it belongs to. *)
Definition populated_text (key v : string) : list (string * json) :=
  if is_empty v then [] else [(key, JStr v)].

Definition ground_truth (raw : raw_product) : list (string * json) :=
  (populated_text "product_name" (text_of (raw_title raw))
   ++ populated_text "brand" (raw_brand raw)
   ++ populated_text "price" (text_of (raw_price raw))
   ++ populated_text "product_url" (href (raw_url raw))
   ++ match raw_images raw with
      | [] => []
      | first :: _ => [("image_url", JStr first)]
      end
   ++ match raw_sizes raw with
      | [] => []
      | sizes => [("sizes_available", JStrs sizes)]
      end)%list.

(** The keys [enforce] can write. *)
Definition enforced_keys : list string :=
  ["product_name"; "brand"; "price"; "product_url"; "image_url"; "sizes_available"].

(** [cleaned.get("style_tags") or []]. *)
Definition style_tags_or_empty (cleaned : dict) : json :=
  let v := py_get "style_tags" cleaned in
  if truthy v then v else JArr [].

(** First-seen order without repeats. *)
Definition add_new (acc : list string) (x : string) : list string :=
  if mem x acc then acc else (acc ++ [x])%list.

Definition dedup (l : list string) : list string := fold_left add_new l [].

(** The allowed tags a value of the reply matches, whatever the case. *)
Definition canonical (t : json) : list string :=
  match t with
  | JStr s => filter (fun allowed => lower (strip s) =? lower allowed) ALLOWED_STYLE_TAGS
  | _ => []
  end.

Definition first_seen (tags : list json) : list string :=
  dedup (flat_map canonical tags).

(** The first hit of a list of attempts. *)
Fixpoint first_some {A : Type} (l : list (option A)) : option A :=
  match l with
  | [] => None
  | Some a :: _ => Some a
  | None :: r => first_some r
  end.

(** What one JSON-LD block gives for the price. *)
Definition block_price (block : option json) : option string :=
  match block with
  | Some (JObj d) => found (read_price (JObj d))
  | Some (JArr items) => first_some (map (fun item => found (read_price item)) items)
  | _ => None
  end.

(** The size labels as the specification lists them: the lettered sizes up
    to XXXXXL. *)
Definition SPEC_SIZE_WORDS : list string :=
  [ "XXXS"; "XXS"; "XS"; "S"; "M"; "L"; "XL"; "XXL"; "XXXL"; "XXXXL"; "XXXXXL";
    "3XL"; "4XL"; "5XL";
    "ONE SIZE"; "ONESIZE"; "OS";
    "S/M"; "M/L"; "L/XL" ].



(** What the guard leaves under a key. *)
Definition guarded (allowed : list string) (v : option json) : Prop :=
  v = Some JNull \/ exists s, v = Some (JStr s) /\ In s allowed.

(** What [extract_images_from_page] keeps of a source: it starts as an
    absolute URL does, and no blocklisted text stands in it, in lower case
    or as it is. *)
Definition clean_source (s : string) : Prop :=
  startswith s "http" = true
  /\ forall b, In b IMAGE_BLOCKLIST ->
       contains b (lower s) = false /\ contains b s = false.

(** Descending order of the areas. *)
Definition larger_first (a b : candidate) : Prop := (c_area b <= c_area a)%Z.

(** The key order, as a relation: [a] may stand before [b]. *)
Definition ranks_before (a b : candidate) : Prop := key_lt a b = false.

Definition positive (c : candidate) : bool := (0 <? c_score c)%Z.

(** The token rule as the specification words it, over its own labels. *)
Definition spec_is_valid_size_token (token : string) : bool :=
  let t := upper (strip token) in
  mem t SPEC_SIZE_WORDS
  || mem (replace " " "" t) SPEC_SIZE_WORDS
  || match two_digits t with
     | Some val => (20 <=? val)%Z && (val <=? 60)%Z
     | None => false
     end.

(** A size label, with or without its spaces. *)
Definition size_label (t : string) : Prop :=
  In t VALID_SIZE_WORDS \/ In (replace " " "" t) VALID_SIZE_WORDS.

(** Exactly two digits whose value lies in 20..60. *)
Definition waist_size (t : string) : Prop :=
  exists a b : ascii,
    t = String a (String b EmptyString)
    /\ is_digit a = true /\ is_digit b = true
    /\ (20 <= 10 * digit_value a + digit_value b <= 60)%Z.

(** What holds of the state of the collecting loop at every turn. *)
Definition collected (st : list candidate * list string) : Prop :=
  map c_src (fst st) = rev (snd st)
  /\ NoDup (snd st)
  /\ Forall (fun c => passes (c_src c) = true /\ (0 <= c_score c)%Z) (fst st).

(** The candidates that survive the filters, and those of them kept. *)
Definition survivors (infos : list img_info) (u : url) (title : string)
  : list candidate := collect infos u title.

Definition ranked (infos : list img_info) (u : url) (title : string)
  : list candidate := select (survivors infos u title).

(* ------------------------------------------------------------------ *)
(** ** Sample inputs                                                   *)
(* ------------------------------------------------------------------ *)

Definition no_markup : markup := {| html := ""; ld_json := [] |}.

Definition shop_url : url :=
  {| href := "https://shop.com/p/1"; hostname := Some "shop.com" |}.

Definition size_url : url :=
  {| href := "https://www.size.co.uk/product/beige-new-balance-204l/19708453/";
     hostname := Some "www.size.co.uk" |}.

Definition uk_url : url :=
  {| href := "https://example.co.uk/p/1"; hostname := Some "example.co.uk" |}.

Definition design_url : url :=
  {| href := "https://www.design.com/p/1"; hostname := Some "www.design.com" |}.

Definition sample_raw (price : option string) (desc : option string) (u : url)
  : raw_product :=
  {| raw_title := Some "Beige 204L";
     raw_brand := "New Balance";
     raw_price := price;
     raw_description := desc;
     raw_images := ["https://cdn.example.com/204l-main.jpg"];
     raw_sizes := ["M"; "S"];
     raw_url := u |}.

Definition uk_raw : raw_product :=
  sample_raw (Some "£45.00") (Some "Suede upper, gum sole.") uk_url.

Definition mixed_tags : list json :=
  [JStr " #Y2K "; JStr "#punk"; JInt 7; JStr "#y2k"; JStr "#SKATER"].

Definition mixed_reply : dict := [("style_tags", JArr mixed_tags)].

Definition five_tags : list string :=
  ["#streetwear"; "#athleisure"; "#techwear"; "#y2k"; "#skater"].



(** Three elements: a thumbnail with no hint, a hero picture given by a
    protocol-relative URL, and a payment badge. *)
Definition hero_infos : list img_info :=
  [ {| src := "https://cdn.example.com/thumb.jpg"; width := 150; height := 150;
       alt := ""; className := ""; inPicture := false; top := 5000 |};
    {| src := "//cdn.example.com/hero.jpg"; width := 900; height := 900;
       alt := "product hero"; className := ""; inPicture := true; top := 0 |};
    {| src := "https://cdn.example.com/paypal-logo.png"; width := 900; height := 900;
       alt := "product"; className := ""; inPicture := true; top := 0 |} ].

(** A page in which [salePrice] stands before [price]. *)
Definition two_prices_page : markup :=
  {| html := "{" ++ dq ++ "salePrice" ++ dq ++ ": " ++ dq ++ "10.00" ++ dq ++ ", "
             ++ dq ++ "price" ++ dq ++ ": " ++ dq ++ "20.00" ++ dq ++ "}";
     ld_json := [] |}.

(** A raw record with no currency sign in its price, from a .com host. *)
Definition design_raw : raw_product := sample_raw (Some "45.00") None design_url.

(** A page whose JSON-LD gives a number for the brand. *)
Definition numeric_brand_page : markup :=
  {| html := "<script type=" ++ dq ++ "application/ld+json" ++ dq ++ ">{"
             ++ dq ++ "brand" ++ dq ++ ": 5}</script>";
     ld_json := [Some (JObj [("brand", JInt 5)])] |}.

(* ------------------------------------------------------------------ *)
(** ** The page visit and the pipeline                                 *)
(* ------------------------------------------------------------------ *)

(** What the browser gives for a loaded page: its markup; for each selector
    of the title, price and description lists, in order, the text of the
    first element it selects ([None] when it selects none); the element
    signals of the in-page script; and the texts the four size loops hand
    to [is_valid_size_token], in the order they read them (a missing
    attribute as the empty text). *)
Record page : Type := {
  content : markup;
  title_nodes : list (option string);
  price_nodes : list (option string);
  description_nodes : list (option string);
  elements : list img_info;
  size_texts : list string
}.

(** [for sel in ...: el = page.query_selector(sel); if el: ... break]: the
    trimmed text of the first selector that selects an element. *)
Fixpoint first_text (nodes : list (option string)) : option string :=
  match nodes with
  | [] => None
  | Some t :: _ => Some (strip t)
  | None :: rest => first_text rest
  end.

Definition extract_raw_product_data (u : url) (p : page) : result raw_product :=
  let title := first_text (title_nodes p) in
  brand <- detect_brand u (content p) ;;
  let price := first_text (price_nodes p) in
  let price :=
    if is_empty (text_of price) then extract_price_from_scripts (content p)
    else price in
  let desc := first_text (description_nodes p) in
  let images := extract_images_from_page (elements p) u (text_of title) in
  Ok {| raw_title := title;
        raw_brand := brand;
        raw_price := price;
        raw_description := desc;
        raw_images := images;
        raw_sizes := collect_sizes (size_texts p);
        raw_url := u |}.

(** [scrape_product], the enrichment reply given. *)
Definition scrape_product (u : url) (p : page) (response : option json)
  : result (option dict) :=
  raw <- extract_raw_product_data u p ;;
  clean_product_data raw response.

(** The endpoint from the request on. *)
Definition scrape_endpoint (u : url) (p : page) (response : option json) (now : string)
  : result dict :=
  raw <- extract_raw_product_data u p ;;
  scrape raw response now.

(* ------------------------------------------------------------------ *)
(** ** Notions of the further statements                               *)
(* ------------------------------------------------------------------ *)


Definition is_list (v : json) : bool :=
  match v with JArr _ => true | _ => false end.


Definition CURRENCIES : list string := ["EUR"; "USD"; "GBP"].

(** [c] stands in [s]. *)
Fixpoint has_char (c : ascii) (s : string) : bool :=
  match s with
  | EmptyString => false
  | String a r => Ascii.eqb a c || has_char c r
  end.

(** No white space at the start. *)
Definition starts_clean (s : string) : Prop :=
  match s with
  | EmptyString => True
  | String c _ => is_space c = false
  end.

(** A text [strip] leaves as it is. *)
Definition trimmed (s : string) : Prop := strip s = s.

(** A piece of a pattern that neither opens nor closes the group. *)
Definition plain_rx (r : rx) : bool :=
  match r with
  | ROpen | RClose => false
  | _ => true
  end.

Definition plain (q : list rx) : bool := forallb plain_rx q.

(** A pattern whose group holds a [c+]. *)
Definition grouped (pre mid1 : list rx) (c : ascii -> bool) (mid2 post : list rx)
  : list rx :=
  (pre ++ ROpen :: mid1 ++ RPlus c :: mid2 ++ RClose :: post)%list.

(** The candidate the loop builds for an element. *)
Definition candidate_of (slug_tokens title_tokens : list string) (info : img_info)
  : candidate :=
  {| c_score := score_of info (normalise (src info)) slug_tokens title_tokens;
     c_area := (width info * height info)%Z;
     c_src := normalise (src info) |}.

(** An element whose source becomes a candidate, were it the first seen. *)
Definition eligible (info : img_info) : bool :=
  negb (is_empty (src info)) && passes (normalise (src info)).

(** A block of JSON-LD that gives no brand: one that does not parse, a
    scalar, an object with no truthy [brand], a list none of whose items is
    an object with a [brand] key. *)
Definition brandless (block : option json) : bool :=
  match block with
  | None => true
  | Some (JObj d) => negb (truthy (py_get "brand" d))
  | Some (JArr items) =>
      match first_item_brand items with
      | Some _ => false
      | None => true
      end
  | Some _ => true
  end.

(** Ascending order of texts. *)
Definition text_le (a b : string) : Prop := String.leb a b = true.

(** A reply with a category outside the vocabulary, and the record the
    endpoint returns for it. *)
Definition hat_reply : option json :=
  Some (JObj [("category", JStr "hat"); ("gender_target", JStr "unisex")]).

Definition sample_time : string := "2026-01-01T00:00:00".

Definition hat_record : dict :=
  match scrape uk_raw hat_reply sample_time with
  | Ok d => d
  | Raise _ => []
  end.

(** The characters of the fragments removed from the host's first label. *)
Definition FRAGMENT_CHARS : string := "ukuseucoshop".

(** The fragments themselves, in the order in which they are removed. *)
Definition FRAGMENTS : list string := ["uk"; "us"; "eu"; "co"; "shop"].

(** A text of white space only. *)
Fixpoint blank (s : string) : bool :=
  match s with
  | EmptyString => true
  | String c r => is_space c && blank r
  end.

(** An absolute URL of the web: it names its scheme. *)
Definition absolute_url (s : string) : bool :=
  startswith s "http://" || startswith s "https://".

(** A picture loaded lazily: the page names it, relative to itself, in
    [data-src], and the script reads that attribute as it stands. *)
Definition lazy_infos : list img_info :=
  [ {| src := "httpfoo.jpg"; width := 900; height := 900;
       alt := "product"; className := ""; inPicture := false; top := 0 |} ].

(** The first label of the host, [www.] removed. *)
Definition first_label (u : url) : string :=
  first_segment "." (replace "www." "" (host u)).

(** A page with a block that does not parse and a block with no brand
    before the block that names the brand. *)
Definition nike_blocks : list (option json) :=
  [Some (JObj [("brand", JObj [("@type", JStr "Brand"); ("name", JStr " Nike ")])])].

Definition noisy_blocks : list (option json) :=
  [None; Some (JObj [("@type", JStr "WebSite")]); Some (JArr [JInt 1; JStr "x"])].

(** Candidates of equal score and area. *)
Definition same_key (a b : candidate) : bool :=
  (c_score a =? c_score b)%Z && (c_area a =? c_area b)%Z.

(** A sample page. *)
Definition sample_page : page :=
  {| content := two_prices_page;
     title_nodes := [None; Some "  Beige 204L "; Some "other"];
     price_nodes := [None; None; None];
     description_nodes := [];
     elements := hero_infos;
     size_texts := ["s"; "M "; "29"; "junk"; "m"] |}.

(** The record the endpoint returns for the sample page. *)
Definition sample_page_record : dict :=
  match scrape_endpoint size_url sample_page hat_reply sample_time with
  | Ok d => d
  | Raise _ => []
  end.

(* ================================================================== *)
(** * Part II. Properties                                              *)
(* ================================================================== *)

(* ------------------------------------------------------------------ *)
(** ** Dictionaries                                                    *)
(* ------------------------------------------------------------------ *)

Lemma dict_get_set_same (k : string) (v : json) (d : dict) :
  dict_get k (dict_set k v d) = Some v.
Proof.
  induction d as [|[k' v'] r IH]; simpl.
  - now rewrite String.eqb_refl.
  - destruct (k' =? k) eqn:E; simpl; rewrite E; auto.
Qed.

Lemma dict_get_set_other (k k' : string) (v : json) (d : dict) :
  k <> k' -> dict_get k (dict_set k' v d) = dict_get k d.
Proof.
  intros Hne. induction d as [|[k0 v0] r IH]; simpl.
  - destruct (k' =? k) eqn:E; auto.
    apply String.eqb_eq in E. congruence.
  - destruct (k0 =? k') eqn:E; simpl.
    + apply String.eqb_eq in E. subst k0.
      destruct (k' =? k) eqn:E'; auto.
      apply String.eqb_eq in E'. congruence.
    + destruct (k0 =? k); auto.
Qed.

Lemma assert_text_same (k v : string) (d : dict) :
  dict_get k (assert_text k v d) =
  if is_empty v then dict_get k d else Some (JStr v).
Proof.
  unfold assert_text. destruct (is_empty v); auto using dict_get_set_same.
Qed.

Lemma assert_text_other (k k' v : string) (d : dict) :
  k <> k' -> dict_get k (assert_text k' v d) = dict_get k d.
Proof.
  intros. unfold assert_text. destruct (is_empty v); auto using dict_get_set_other.
Qed.

(** A key is read through the assignments to other keys. *)
Ltac skip_sets :=
  repeat first
    [ rewrite assert_text_other by (intro; discriminate)
    | rewrite dict_get_set_other by (intro; discriminate) ].

Lemma enforce_other (raw : raw_product) (d : dict) (k : string) :
  ~ In k enforced_keys -> dict_get k (enforce raw d) = dict_get k d.
Proof.
  intros Hk. unfold enforced_keys in Hk. simpl in Hk.
  assert (H1 : k <> "product_name") by (intro; subst; tauto).
  assert (H2 : k <> "brand") by (intro; subst; tauto).
  assert (H3 : k <> "price") by (intro; subst; tauto).
  assert (H4 : k <> "product_url") by (intro; subst; tauto).
  assert (H5 : k <> "image_url") by (intro; subst; tauto).
  assert (H6 : k <> "sizes_available") by (intro; subst; tauto).
  unfold enforce.
  destruct (raw_sizes raw); destruct (raw_images raw);
    repeat first
      [ rewrite assert_text_other by assumption
      | rewrite dict_get_set_other by assumption ];
    reflexivity.
Qed.

Lemma fill_currency_other (raw : raw_product) (d : dict) (k : string) :
  k <> "currency" -> dict_get k (fill_currency raw d) = dict_get k d.
Proof.
  intros. unfold fill_currency.
  destruct (truthy _); auto using dict_get_set_other.
Qed.

Lemma filter_style_tags_other (d : dict) (k : string) :
  k <> "style_tags" -> dict_get k (filter_style_tags d) = dict_get k d.
Proof.
  intros. unfold filter_style_tags.
  destruct (if truthy _ then _ else _); auto using dict_get_set_other.
Qed.

(** What the two later steps leave alone. *)
Lemma after_enforce (raw : raw_product) (d : dict) (k : string) :
  k <> "currency" -> k <> "style_tags" ->
  dict_get k (filter_style_tags (fill_currency raw d)) = dict_get k d.
Proof.
  intros. rewrite filter_style_tags_other, fill_currency_other; auto.
Qed.

Lemma enforce_product_name raw d :
  dict_get "product_name" (enforce raw d) =
  if is_empty (text_of (raw_title raw)) then dict_get "product_name" d
  else Some (JStr (text_of (raw_title raw))).
Proof.
  unfold enforce. destruct (raw_sizes raw); destruct (raw_images raw);
    skip_sets; apply assert_text_same.
Qed.

Lemma enforce_brand raw d :
  dict_get "brand" (enforce raw d) =
  if is_empty (raw_brand raw) then dict_get "brand" d
  else Some (JStr (raw_brand raw)).
Proof.
  unfold enforce. destruct (raw_sizes raw); destruct (raw_images raw);
    skip_sets; rewrite assert_text_same; skip_sets; reflexivity.
Qed.

Lemma enforce_price raw d :
  dict_get "price" (enforce raw d) =
  if is_empty (text_of (raw_price raw)) then dict_get "price" d
  else Some (JStr (text_of (raw_price raw))).
Proof.
  unfold enforce. destruct (raw_sizes raw); destruct (raw_images raw);
    skip_sets; rewrite assert_text_same; skip_sets; reflexivity.
Qed.

Lemma enforce_product_url raw d :
  dict_get "product_url" (enforce raw d) =
  if is_empty (href (raw_url raw)) then dict_get "product_url" d
  else Some (JStr (href (raw_url raw))).
Proof.
  unfold enforce. destruct (raw_sizes raw); destruct (raw_images raw);
    skip_sets; rewrite assert_text_same; skip_sets; reflexivity.
Qed.

Lemma enforce_image_url raw d :
  dict_get "image_url" (enforce raw d) =
  match raw_images raw with
  | [] => dict_get "image_url" d
  | first :: _ => Some (JStr first)
  end.
Proof.
  unfold enforce. destruct (raw_sizes raw); destruct (raw_images raw);
    skip_sets; try rewrite dict_get_set_same; skip_sets; reflexivity.
Qed.

Lemma enforce_sizes_available raw d :
  dict_get "sizes_available" (enforce raw d) =
  match raw_sizes raw with
  | [] => dict_get "sizes_available" d
  | sizes => Some (JStrs sizes)
  end.
Proof.
  unfold enforce. destruct (raw_sizes raw); destruct (raw_images raw);
    skip_sets; try rewrite dict_get_set_same; skip_sets; reflexivity.
Qed.

(* ------------------------------------------------------------------ *)
(** ** The ground-truth fields                                         *)
(* ------------------------------------------------------------------ *)

(** C1. For every raw record and every reply that parses as a JSON object,
    [clean_product_data] returns a record in which each of the six
    ground-truth fields holds the raw value whenever that raw value is
    non-empty (and what the reply held otherwise): the title under
    [product_name], the brand, the price, the URL under [product_url], the
    first image under [image_url], the sizes under [sizes_available]. *)
Theorem clean_product_data_reasserts_ground_truth (raw : raw_product) (cleaned : dict) :
  exists out,
    clean_product_data raw (Some (JObj cleaned)) = Ok (Some out)
    /\ dict_get "product_name" out =
       (if is_empty (text_of (raw_title raw)) then dict_get "product_name" cleaned
        else Some (JStr (text_of (raw_title raw))))
    /\ dict_get "brand" out =
       (if is_empty (raw_brand raw) then dict_get "brand" cleaned
        else Some (JStr (raw_brand raw)))
    /\ dict_get "price" out =
       (if is_empty (text_of (raw_price raw)) then dict_get "price" cleaned
        else Some (JStr (text_of (raw_price raw))))
    /\ dict_get "product_url" out =
       (if is_empty (href (raw_url raw)) then dict_get "product_url" cleaned
        else Some (JStr (href (raw_url raw))))
    /\ dict_get "image_url" out =
       match raw_images raw with
       | [] => dict_get "image_url" cleaned
       | first :: _ => Some (JStr first)
       end
    /\ dict_get "sizes_available" out =
       match raw_sizes raw with
       | [] => dict_get "sizes_available" cleaned
       | sizes => Some (JStrs sizes)
       end.
Proof.
  eexists. split; [reflexivity|].
  repeat split; rewrite after_enforce by (intro; discriminate).
  - apply enforce_product_name.
  - apply enforce_brand.
  - apply enforce_price.
  - apply enforce_product_url.
  - apply enforce_image_url.
  - apply enforce_sizes_available.
Qed.

Lemma populated_text_holds (key v : string) (d : dict) :
  dict_get key d = (if is_empty v then dict_get key d else Some (JStr v)) ->
  Forall (fun kv => dict_get (fst kv) d = Some (snd kv)) (populated_text key v).
Proof.
  unfold populated_text. destruct (is_empty v); intros H; constructor; auto.
Qed.

(** C2, as amended. For every raw record and every reply that parses as a
    JSON object, each populated ground-truth field of the raw record (title,
    brand, price, URL, first image, sizes) is the value of its field in the
    returned record; the description is not among them: the returned record
    carries under [description] whatever the reply held there. *)
Theorem populated_ground_truth_survives_description_from_reply
    (raw : raw_product) (cleaned : dict) :
  exists out,
    clean_product_data raw (Some (JObj cleaned)) = Ok (Some out)
    /\ Forall (fun kv => dict_get (fst kv) out = Some (snd kv)) (ground_truth raw)
    /\ dict_get "description" out = dict_get "description" cleaned.
Proof.
  eexists. split; [reflexivity|]. split.
  - unfold ground_truth. repeat rewrite Forall_app. repeat split.
    + apply populated_text_holds. rewrite after_enforce by (intro; discriminate).
      rewrite enforce_product_name. now destruct (is_empty _).
    + apply populated_text_holds. rewrite after_enforce by (intro; discriminate).
      rewrite enforce_brand. now destruct (is_empty _).
    + apply populated_text_holds. rewrite after_enforce by (intro; discriminate).
      rewrite enforce_price. now destruct (is_empty _).
    + apply populated_text_holds. rewrite after_enforce by (intro; discriminate).
      rewrite enforce_product_url. now destruct (is_empty _).
    + destruct (raw_images raw) eqn:E; constructor; auto. simpl.
      rewrite after_enforce by (intro; discriminate).
      rewrite enforce_image_url. now rewrite E.
    + destruct (raw_sizes raw) eqn:E; constructor; auto. simpl.
      rewrite after_enforce by (intro; discriminate).
      rewrite enforce_sizes_available. now rewrite E.
  - rewrite after_enforce by (intro; discriminate).
    apply enforce_other. unfold enforced_keys. simpl.
    intros H. repeat destruct H as [H|H]; try discriminate H; assumption.
Qed.

(** C2, as stated, fails: the raw record has a description, the reply holds
    another, and the record returned carries the reply's. *)
Lemma description_is_rewritten :
  raw_description uk_raw = Some "Suede upper, gum sole."
  /\ cleaned_field "description"
       (clean_product_data uk_raw
          (Some (JObj [("description", JStr "The best shoe ever made.")])))
     = Some (JStr "The best shoe ever made.").
Proof. split; reflexivity. Qed.

(* ------------------------------------------------------------------ *)
(** ** Style tags                                                      *)
(* ------------------------------------------------------------------ *)

Lemma mem_In (x : string) (l : list string) : mem x l = true <-> In x l.
Proof.
  unfold mem. rewrite existsb_exists. split.
  - intros [y [Hy E]]. apply String.eqb_eq in E. now subst.
  - intros H. exists x. split; auto. apply String.eqb_refl.
Qed.

Lemma mem_false (x : string) (l : list string) : mem x l = false <-> ~ In x l.
Proof.
  rewrite <- mem_In. destruct (mem x l); split; congruence.
Qed.

Section FirstSeen.

(** The loop over the allowed values is a fold of [add_new] over those
    that match. *)
Lemma conditional_fold (p : string -> bool) (l acc : list string) :
  fold_left (fun acc a => if p a
                          then (if mem a acc then acc else acc ++ [a])%list
                          else acc) l acc
  = fold_left add_new (filter p l) acc.
Proof.
  revert acc. induction l as [|a l IH]; intros acc; simpl; auto.
  destruct (p a); simpl; apply IH.
Qed.

Lemma tag_step_canonical (acc : list string) (t : json) :
  tag_step acc t = fold_left add_new (canonical t) acc.
Proof.
  destruct t; cbn [tag_step canonical fold_left]; auto.
  unfold match_allowed. apply conditional_fold.
Qed.

Lemma fold_tag_step (tags : list json) (acc : list string) :
  fold_left tag_step tags acc = fold_left add_new (flat_map canonical tags) acc.
Proof.
  revert acc. induction tags as [|t tags IH]; intros acc; simpl; auto.
  rewrite fold_left_app, IH. now rewrite tag_step_canonical.
Qed.

Lemma filter_tags_first_seen (tags : list json) :
  filter_tags tags = first_seen tags.
Proof. apply fold_tag_step. Qed.

Lemma add_new_In (acc : list string) (x y : string) :
  In y (add_new acc x) <-> In y acc \/ y = x.
Proof.
  unfold add_new. destruct (mem x acc) eqn:E.
  - apply mem_In in E. split; [tauto|]. intros [H|H]; subst; auto.
  - rewrite in_app_iff. simpl. intuition congruence.
Qed.

Lemma add_new_NoDup (acc : list string) (x : string) :
  NoDup acc -> NoDup (add_new acc x).
Proof.
  intros H. unfold add_new. destruct (mem x acc) eqn:E; auto.
  apply mem_false in E.
  apply NoDup_rev in H. rewrite <- (rev_involutive (acc ++ [x])).
  apply NoDup_rev. rewrite rev_app_distr. simpl. constructor; auto.
  now rewrite <- in_rev.
Qed.

Lemma fold_add_new_In (l acc : list string) (y : string) :
  In y (fold_left add_new l acc) <-> In y acc \/ In y l.
Proof.
  revert acc. induction l as [|x l IH]; intros acc; simpl.
  - tauto.
  - rewrite IH, add_new_In. intuition congruence.
Qed.

Lemma fold_add_new_NoDup (l acc : list string) :
  NoDup acc -> NoDup (fold_left add_new l acc).
Proof.
  revert acc. induction l as [|x l IH]; intros acc H; simpl; auto.
  apply IH. now apply add_new_NoDup.
Qed.

Lemma dedup_In (l : list string) (y : string) : In y (dedup l) <-> In y l.
Proof. unfold dedup. rewrite fold_add_new_In. simpl. tauto. Qed.

Lemma dedup_NoDup (l : list string) : NoDup (dedup l).
Proof. apply fold_add_new_NoDup. constructor. Qed.

Lemma canonical_allowed (t : json) (a : string) :
  In a (canonical t) -> In a ALLOWED_STYLE_TAGS.
Proof.
  destruct t; cbn [canonical In]; try tauto.
  intros H. apply filter_In in H. tauto.
Qed.

Lemma first_seen_allowed (tags : list json) :
  incl (first_seen tags) ALLOWED_STYLE_TAGS.
Proof.
  intros a H. unfold first_seen in H. rewrite dedup_In in H.
  apply in_flat_map in H.
  destruct H as [t [_ H]]. eapply canonical_allowed; eauto.
Qed.

(** Every kept tag matches a value of the reply, whatever the case. *)
Lemma first_seen_matches (tags : list json) (a : string) :
  In a (first_seen tags) <->
  In a ALLOWED_STYLE_TAGS
  /\ exists s, In (JStr s) tags /\ lower (strip s) = lower a.
Proof.
  unfold first_seen. rewrite dedup_In, in_flat_map. split.
  - intros [t [Ht Ha]]. destruct t; cbn [canonical In] in Ha; try tauto.
    apply filter_In in Ha. destruct Ha as [Ha E]. apply String.eqb_eq in E.
    split; auto. eauto.
  - intros [Ha [s [Hs E]]]. exists (JStr s). split; auto.
    cbn [canonical]. apply filter_In. split; auto. now apply String.eqb_eq.
Qed.

End FirstSeen.

Lemma map_injective_on {A B : Type} (f : A -> B) (l : list A) (x y : A) :
  NoDup (map f l) -> In x l -> In y l -> f x = f y -> x = y.
Proof.
  induction l as [|a l IH]; simpl; intros Hn Hx Hy E; [tauto|].
  inversion Hn as [|? ? Hnot Hn']; subst.
  destruct Hx as [Hx|Hx], Hy as [Hy|Hy]; subst; auto.
  - exfalso. apply Hnot. rewrite E. now apply in_map.
  - exfalso. apply Hnot. rewrite <- E. now apply in_map.
Qed.

Lemma NoDup_map_within {A B : Type} (f : A -> B) (l big : list A) :
  NoDup (map f big) -> incl l big -> NoDup l -> NoDup (map f l).
Proof.
  intros Hbig Hincl Hl. induction Hl as [|a l Hnot Hl IH]; simpl; constructor.
  - intros Hin. apply in_map_iff in Hin. destruct Hin as [b [E Hb]].
    assert (b = a).
    { eapply map_injective_on; eauto.
      - apply Hincl. now right.
      - apply Hincl. now left. }
    now subst.
  - apply IH. intros x Hx. apply Hincl. now right.
Qed.

Lemma allowed_lower_NoDup : NoDup (map lower ALLOWED_STYLE_TAGS).
Proof.
  repeat (constructor; [simpl; intros H; repeat destruct H as [H|H]; discriminate H || exact H|]).
  constructor.
Qed.

Lemma py_get_dict_get (k : string) (d d' : dict) :
  dict_get k d = dict_get k d' -> py_get k d = py_get k d'.
Proof. unfold py_get. now intros ->. Qed.

Lemma style_tags_or_empty_after_enforce (raw : raw_product) (d : dict) :
  style_tags_or_empty (fill_currency raw (enforce raw d)) = style_tags_or_empty d.
Proof.
  unfold style_tags_or_empty.
  rewrite (py_get_dict_get "style_tags" _ d); auto.
  rewrite fill_currency_other by (intro; discriminate).
  apply enforce_other. unfold enforced_keys. simpl.
  intros H. repeat destruct H as [H|H]; try discriminate H; assumption.
Qed.

Lemma filter_style_tags_list (d : dict) (tags : list json) :
  style_tags_or_empty d = JArr tags ->
  filter_style_tags d = dict_set "style_tags" (JStrs (filter_tags tags)) d.
Proof.
  intros H. unfold filter_style_tags. fold (style_tags_or_empty d).
  now rewrite H.
Qed.

(** C3, as amended. When the reply parses as a JSON object whose
    [style_tags] is a list (or is missing or empty), the [style_tags] of the
    returned record is the list of the allowed values that the reply's tags
    match whatever the case, each once, in first-seen order: all of them in
    the allowed vocabulary, no two equal whatever the case, at most 9 of
    them (the size of the vocabulary; there is no cap at 4). *)
Theorem style_tags_closed_over_vocabulary
    (raw : raw_product) (cleaned : dict) (tags : list json) :
  style_tags_or_empty cleaned = JArr tags ->
  cleaned_field "style_tags" (clean_product_data raw (Some (JObj cleaned)))
  = Some (JStrs (first_seen tags))
  /\ incl (first_seen tags) ALLOWED_STYLE_TAGS
  /\ NoDup (map lower (first_seen tags))
  /\ (List.length (first_seen tags) <= 9)%nat.
Proof.
  intros Htags. repeat split.
  - simpl. rewrite (filter_style_tags_list _ tags).
    + now rewrite dict_get_set_same, filter_tags_first_seen.
    + now rewrite style_tags_or_empty_after_enforce.
  - apply first_seen_allowed.
  - apply NoDup_map_within with (big := ALLOWED_STYLE_TAGS).
    + apply allowed_lower_NoDup.
    + apply first_seen_allowed.
    + apply dedup_NoDup.
  - change 9%nat with (List.length ALLOWED_STYLE_TAGS).
    apply NoDup_incl_length.
    + apply dedup_NoDup.
    + apply first_seen_allowed.
Qed.

(** The theorem at a reply that mixes cases, repeats and strangers. *)
Lemma style_tags_closed_over_vocabulary_witness :
  style_tags_or_empty mixed_reply = JArr mixed_tags
  /\ (cleaned_field "style_tags" (clean_product_data uk_raw (Some (JObj mixed_reply)))
      = Some (JStrs (first_seen mixed_tags))
      /\ incl (first_seen mixed_tags) ALLOWED_STYLE_TAGS
      /\ NoDup (map lower (first_seen mixed_tags))
      /\ (List.length (first_seen mixed_tags) <= 9)%nat).
Proof.
  split; [reflexivity|].
  apply (style_tags_closed_over_vocabulary uk_raw mixed_reply mixed_tags).
  reflexivity.
Defined.

Example mixed_tags_kept : first_seen mixed_tags = ["#y2k"; "#skater"].
Proof. reflexivity. Qed.

(** C3, as stated, fails on the cap: a reply with five allowed tags keeps
    all five. *)
Lemma five_style_tags_are_kept :
  cleaned_field "style_tags"
    (clean_product_data uk_raw (Some (JObj [("style_tags", JStrs five_tags)])))
  = Some (JStrs five_tags)
  /\ (4 < List.length five_tags)%nat.
Proof. split; [reflexivity | simpl; lia]. Qed.

(** A [style_tags] that is neither a list nor empty is left as the reply
    gave it. *)
Lemma style_tags_text_is_left_alone :
  cleaned_field "style_tags"
    (clean_product_data uk_raw (Some (JObj [("style_tags", JStr "#punk")])))
  = Some (JStr "#punk").
Proof. reflexivity. Qed.

(* ------------------------------------------------------------------ *)
(** ** Brand                                                           *)
(* ------------------------------------------------------------------ *)

Lemma title_go_empty (b : bool) (s : string) :
  title_go b s = EmptyString <-> s = EmptyString.
Proof.
  destruct s as [|c r]; simpl; [tauto|].
  destruct (is_alpha c); split; discriminate.
Qed.

Lemma title_empty (s : string) : title s = EmptyString <-> s = EmptyString.
Proof. apply title_go_empty. Qed.

Section KeptCharacters.

Variable c : ascii.

Lemma has_char_substring_0 (s : string) : has_char c (substring 0 0 s) = false.
Proof. now destruct s. Qed.

Lemma replace_go_keeps (old : string) :
  old <> EmptyString -> has_char c old = false ->
  forall (s : string) (k : nat),
    has_char c (substring 0 k s) = false ->
    has_char c s = true ->
    has_char c (replace_go old "" k s) = true.
Proof.
  intros Hne Hold. induction s as [|a r IH]; intros k Hk Hs; [discriminate Hs|].
  destruct k as [|k].
  - cbn [replace_go]. destruct (prefix old (String a r)) eqn:Ep.
    + destruct old as [|a' old']; [congruence|].
      apply prefix_correct in Ep. simpl in Ep. injection Ep as Ha Hr.
      simpl in Hold. apply orb_false_iff in Hold. destruct Hold as [Hc Hold'].
      simpl in Hs. rewrite Ha, Hc in Hs. simpl in Hs.
      cbn [String.length]. rewrite Nat.sub_succ, Nat.sub_0_r. cbn [append].
      apply IH; auto. now rewrite Hr.
    + simpl. simpl in Hs. destruct (Ascii.eqb a c); auto. simpl in *.
      apply IH; auto. apply has_char_substring_0.
  - simpl in Hk. apply orb_false_iff in Hk. destruct Hk as [Hc Hk].
    simpl in Hs. rewrite Hc in Hs. simpl in Hs.
    cbn [replace_go]. now apply IH.
Qed.

Lemma replace_keeps (old s : string) :
  old <> EmptyString -> has_char c old = false ->
  has_char c s = true -> has_char c (replace old "" s) = true.
Proof.
  intros. unfold replace. apply replace_go_keeps; auto.
  apply has_char_substring_0.
Qed.

Hypothesis c_not_space : is_space c = false.

Lemma eqb_not_space (a : ascii) : Ascii.eqb a c = true -> is_space a = false.
Proof. intros H. apply Ascii.eqb_eq in H. now subst. Qed.

Lemma lstrip_keeps (s : string) : has_char c s = true -> has_char c (lstrip s) = true.
Proof.
  induction s as [|a r IH]; simpl; auto.
  destruct (is_space a) eqn:Ea.
  - destruct (Ascii.eqb a c) eqn:E; simpl; auto.
    apply eqb_not_space in E. congruence.
  - auto.
Qed.

Lemma rstrip_keeps (s : string) : has_char c s = true -> has_char c (rstrip s) = true.
Proof.
  induction s as [|a r IH]; simpl; auto.
  destruct (Ascii.eqb a c) eqn:E; simpl.
  - intros _. rewrite (eqb_not_space a E). simpl. now rewrite E.
  - intros H. specialize (IH H).
    destruct (rstrip r) as [|x y] eqn:Er; [discriminate IH|].
    rewrite andb_false_r. simpl. rewrite E. exact IH.
Qed.

Lemma strip_keeps (s : string) : has_char c s = true -> has_char c (strip s) = true.
Proof. intros H. unfold strip. now apply rstrip_keeps, lstrip_keeps. Qed.

End KeptCharacters.

Lemma fragment_chars (c : ascii) :
  has_char c FRAGMENT_CHARS = false ->
  has_char c "uk" = false /\ has_char c "us" = false /\ has_char c "eu" = false
  /\ has_char c "co" = false /\ has_char c "shop" = false.
Proof.
  destruct c as [[] [] [] [] [] [] [] []]; intros H;
    try discriminate H; repeat split; reflexivity.
Qed.

Lemma strip_fragments_keeps (c : ascii) (s : string) :
  has_char c FRAGMENT_CHARS = false ->
  has_char c s = true -> has_char c (strip_fragments s) = true.
Proof.
  intros Hf Hs. apply fragment_chars in Hf.
  destruct Hf as [H1 [H2 [H3 [H4 H5]]]].
  unfold strip_fragments.
  repeat (apply replace_keeps; [discriminate | assumption |]).
  exact Hs.
Qed.

(** A text that strips to nothing is a text of white space. *)
Lemma strip_blank (s : string) : strip s = EmptyString <-> blank s = true.
Proof.
  unfold strip. induction s as [|a r IH]; simpl; [tauto|].
  destruct (is_space a) eqn:Ea; simpl; [exact IH|].
  rewrite Ea. simpl. split; discriminate.
Qed.

(** The code's chain of [replace] calls removes the fragments one after
    the other, in the order of the list. *)
Lemma strip_fragments_in_order (s : string) :
  strip_fragments s = fold_left (fun t f => replace f "" t) FRAGMENTS s.
Proof. reflexivity. Qed.

Lemma domain_label_of_first_label (u : url) :
  domain_label u = strip_fragments (first_label u).
Proof. reflexivity. Qed.

(** C4, as amended. When the JSON-LD gives no brand, [detect_brand] returns
    normally: the title-cased, trimmed first label of the host ([www.]
    removed) from which every occurrence of uk, then of us, eu, co and shop
    was removed.  That brand is empty exactly when what is left of the label
    is white space; it is empty when the label is empty or is itself one of
    the five fragments (as for the hosts shop.com and us.example.com); and
    when it is empty, every character of the label is white space or one of
    the letters of the fragments. *)
Theorem detect_brand_domain_fallback (u : url) (m : markup) :
  truthy (extract_brand_from_jsonld (ld_json m)) = false ->
  exists b : string,
    detect_brand u m = Ok b
    /\ b = title (strip (fold_left (fun t f => replace f "" t) FRAGMENTS (first_label u)))
    /\ (b = EmptyString
        <-> blank (fold_left (fun t f => replace f "" t) FRAGMENTS (first_label u)) = true)
    /\ (first_label u = EmptyString \/ In (first_label u) FRAGMENTS -> b = EmptyString)
    /\ (b = EmptyString ->
        forall c : ascii,
          has_char c (first_label u) = true ->
          is_space c = true \/ has_char c FRAGMENT_CHARS = true).
Proof.
  intros H. exists (title (strip (domain_label u))).
  split; [unfold detect_brand; now rewrite H|].
  rewrite domain_label_of_first_label, strip_fragments_in_order.
  split; [reflexivity|].
  split; [now rewrite title_empty, strip_blank|].
  split.
  - intros [E|E].
    + now rewrite E.
    + cbn [FRAGMENTS In] in E.
      destruct E as [E|[E|[E|[E|[E|[]]]]]]; rewrite <- E; reflexivity.
  - rewrite title_empty, <- strip_fragments_in_order. intros He c Hc.
    destruct (is_space c) eqn:Es; [now left|right].
    destruct (has_char c FRAGMENT_CHARS) eqn:Ef; [reflexivity|].
    assert (Hk : has_char c (strip (strip_fragments (first_label u))) = true).
    { apply strip_keeps; auto. now apply strip_fragments_keeps. }
    rewrite He in Hk. discriminate Hk.
Qed.

(** The theorem at the host www.size.co.uk, whose label size loses nothing
    and gives the brand Size. *)
Lemma detect_brand_domain_fallback_witness :
  truthy (extract_brand_from_jsonld (ld_json no_markup)) = false
  /\ exists b : string,
       detect_brand size_url no_markup = Ok b
       /\ b = title (strip (fold_left (fun t f => replace f "" t) FRAGMENTS
                              (first_label size_url)))
       /\ (b = EmptyString
           <-> blank (fold_left (fun t f => replace f "" t) FRAGMENTS
                        (first_label size_url)) = true)
       /\ (first_label size_url = EmptyString \/ In (first_label size_url) FRAGMENTS
           -> b = EmptyString)
       /\ (b = EmptyString ->
           forall c : ascii,
             has_char c (first_label size_url) = true ->
             is_space c = true \/ has_char c FRAGMENT_CHARS = true).
Proof.
  split; [reflexivity|].
  apply (detect_brand_domain_fallback size_url no_markup). reflexivity.
Defined.

Example size_co_uk_brand : detect_brand size_url no_markup = Ok "Size".
Proof. reflexivity. Qed.

(** C4, as stated, fails: the host shop.com is valid, no JSON-LD brand is
    found, and the brand returned is the empty text. *)
Lemma shop_com_has_empty_brand :
  hostname shop_url = Some "shop.com"
  /\ detect_brand shop_url no_markup = Ok EmptyString.
Proof. split; reflexivity. Qed.

(* ------------------------------------------------------------------ *)
(** ** Sizes                                                           *)
(* ------------------------------------------------------------------ *)

Lemma two_digits_waist (t : string) :
  match two_digits t with
  | Some val => (20 <=? val)%Z && (val <=? 60)%Z
  | None => false
  end = true <-> waist_size t.
Proof.
  unfold waist_size, two_digits. split.
  - destruct t as [|a [|b [|c r]]]; try discriminate.
    destruct (is_digit a) eqn:Ea; try discriminate.
    destruct (is_digit b) eqn:Eb; try discriminate.
    cbn [andb]. intros H. apply andb_true_iff in H. destruct H as [H1 H2].
    apply Z.leb_le in H1, H2.
    exists a, b. repeat split; auto.
  - intros [a [b [-> [Ea [Eb [H1 H2]]]]]]. rewrite Ea, Eb. cbn [andb].
    apply andb_true_iff. split; now apply Z.leb_le.
Qed.

Lemma empty_is_no_size (t : string) :
  is_empty t = true -> ~ (size_label t \/ waist_size t).
Proof.
  destruct t; [|discriminate]. intros _ [[H|H]|[a [b [H _]]]].
  - apply mem_In in H. discriminate H.
  - apply mem_In in H. discriminate H.
  - discriminate H.
Qed.

(** C5, as amended. [is_valid_size_token] accepts a token exactly when its
    trimmed, upper-cased form, or that form without its spaces, is one of
    the labels XXXS, XXS, XS, S, M, L, XL, XXL, XXXL, 3XL, 4XL, 5XL,
    ONE SIZE, ONESIZE, OS, S/M, M/L, L/XL (the lettered sizes end at XXXL),
    or is exactly two digits of value 20 to 60; the tokens s, M followed by
    a space, and 29 are accepted, junk is rejected, and the four give the
    set 29, M, S. *)
Theorem is_valid_size_token_accepts_exactly :
  (forall token : string,
     is_valid_size_token token = true
     <-> size_label (upper (strip token)) \/ waist_size (upper (strip token)))
  /\ is_valid_size_token "s" = true
  /\ is_valid_size_token "M " = true
  /\ is_valid_size_token "29" = true
  /\ is_valid_size_token "junk" = false
  /\ collect_sizes ["s"; "M "; "29"; "junk"] = ["29"; "M"; "S"].
Proof.
  split; [|repeat split; reflexivity].
  intros token. unfold is_valid_size_token.
  set (t := upper (strip token)).
  destruct (is_empty t) eqn:Et.
  - split; [discriminate|]. intros H. now apply empty_is_no_size in H.
  - unfold size_label.
    destruct (mem t VALID_SIZE_WORDS) eqn:E1.
    { apply mem_In in E1. tauto. }
    destruct (mem (replace " " "" t) VALID_SIZE_WORDS) eqn:E2.
    { apply mem_In in E2. tauto. }
    apply mem_false in E1. apply mem_false in E2.
    rewrite two_digits_waist. tauto.
Qed.

(** C5, as stated, fails on the largest lettered sizes: XXXXXL is a label of
    the specification's set, and the code rejects it. *)
Lemma xxxxxl_is_rejected :
  spec_is_valid_size_token "XXXXXL" = true
  /\ is_valid_size_token "XXXXXL" = false
  /\ is_valid_size_token "5XL" = true.
Proof. repeat split; reflexivity. Qed.

(* ------------------------------------------------------------------ *)
(** ** Price                                                           *)
(* ------------------------------------------------------------------ *)



Lemma first_item_price_first_some (items : list json) :
  first_item_price items
  = first_some (map (fun item => found (read_price item)) items).
Proof.
  induction items as [|item items IH]; simpl; auto.
  destruct (found (read_price item)); auto.
Qed.

Lemma offers_price_first_some (blocks : list (option json)) :
  offers_price blocks = first_some (map block_price blocks).
Proof.
  induction blocks as [|[data|] blocks IH]; auto.
  destruct data; cbn [offers_price map block_price first_some]; auto.
  - rewrite <- first_item_price_first_some.
    destruct (first_item_price items); auto.
  - destruct (found (read_price (JObj fields))); auto.
Qed.


(** The order of the patterns decides, not the place in the text. *)
Example price_before_sale_price :
  extract_price_from_scripts two_prices_page = Some "20.00".
Proof. vm_compute. reflexivity. Qed.


(* ------------------------------------------------------------------ *)
(** ** Currency                                                        *)
(* ------------------------------------------------------------------ *)

(** The order in which the currency is read off the price, then the host. *)
Lemma infer_currency_precedence (raw : raw_product) :
  infer_currency raw =
  let p := text_of (raw_price raw) in
  let h := host (raw_url raw) in
  if contains "€" p then "EUR"
  else if contains "$" p then "USD"
  else if contains "£" p then "GBP"
  else if contains ".co.uk" h || endswith h ".uk" then "GBP"
  else if contains ".de" h || contains ".fr" h || contains ".es" h || contains ".it" h
       then "EUR"
  else "GBP".
Proof.
  unfold infer_currency, EU_TLDS, any_in. cbn [existsb].
  now rewrite !orb_false_r, !orb_assoc.
Qed.

Lemma fill_currency_empty (raw : raw_product) (cleaned : dict) :
  truthy (py_get "currency" cleaned) = false ->
  dict_get "currency" (fill_currency raw cleaned) = Some (JStr (infer_currency raw)).
Proof.
  intros H. unfold fill_currency. rewrite H. apply dict_get_set_same.
Qed.

(** The example of C8: a price in pounds on a .co.uk host gives GBP. *)
Example pounds_on_uk_host :
  cleaned_field "currency" (clean_product_data uk_raw (Some (JObj [])))
  = Some (JStr "GBP").
Proof. reflexivity. Qed.

(** C8 on the code: the host www.design.com is no .de domain, its price has
    no currency sign, and the currency filled in is EUR, not the default:
    [.de] is looked for anywhere in the host. *)
Theorem com_host_gets_eur :
  host (raw_url design_raw) = "www.design.com"
  /\ endswith (host (raw_url design_raw)) ".de" = false
  /\ cleaned_field "currency" (clean_product_data design_raw (Some (JObj [])))
     = Some (JStr "EUR").
Proof. repeat split; reflexivity. Qed.

(* ------------------------------------------------------------------ *)
(** ** The endpoint's guard                                            *)
(* ------------------------------------------------------------------ *)

Lemma not_in_set_guard (k : string) (allowed : list string) (d : dict) (b : bool) :
  not_in_set (py_get k d) allowed = Ok b ->
  guarded allowed (dict_get k (if b then dict_set k JNull d else d)).
Proof.
  unfold py_get, guarded. destruct (dict_get k d) as [v|] eqn:E.
  - destruct v; simpl; intros H; inversion H; subst;
      try (left; apply dict_get_set_same).
    destruct (mem s allowed) eqn:Em; simpl.
    + right. exists s. split; auto. now apply mem_In.
    + left. apply dict_get_set_same.
  - simpl. intros H. inversion H; subst. left. apply dict_get_set_same.
Qed.

(** X1. Every record the endpoint returns has its category and its gender
    target among the allowed values, or null. *)
Lemma scrape_returns_guarded (raw : raw_product) (response : option json)
    (now : string) (d : dict) :
  scrape raw response now = Ok d ->
  guarded VALID_CATEGORY (dict_get "category" d)
  /\ guarded VALID_GENDER (dict_get "gender_target" d).
Proof.
  unfold scrape.
  destruct (clean_product_data raw response) as [[data|]|e]; simpl; try discriminate.
  set (d0 := dict_set "source_domain" _ _).
  destruct (not_in_set (py_get "category" d0) VALID_CATEGORY) as [c|] eqn:Ec;
    simpl; try discriminate.
  set (d1 := if c then dict_set "category" JNull d0 else d0).
  destruct (not_in_set (py_get "gender_target" d1) VALID_GENDER) as [g|] eqn:Eg;
    simpl; try discriminate.
  intros H. inversion H; subst d. split.
  - assert (Hc : guarded VALID_CATEGORY (dict_get "category" d1))
      by (now apply not_in_set_guard).
    destruct g; auto. now rewrite dict_get_set_other by (intro; discriminate).
  - now apply not_in_set_guard.
Qed.

(** C9 on the code: a reply whose category is a list is not cleared; the
    membership test of the guard raises, and no record is returned. *)
Theorem list_category_raises :
  cleaned_field "category"
    (clean_product_data uk_raw (Some (JObj [("category", JArr [JStr "top"])])))
  = Some (JArr [JStr "top"])
  /\ scrape uk_raw (Some (JObj [("category", JArr [JStr "top"])])) "2026-01-01T00:00:00"
     = Raise TypeError.
Proof. split; reflexivity. Qed.

(* ------------------------------------------------------------------ *)
(** ** Malformed structured data                                       *)
(* ------------------------------------------------------------------ *)

(** C10 on the code: a JSON-LD block whose brand is a number makes
    [detect_brand] raise; the price extractor returns absence on it. *)
Theorem numeric_brand_raises :
  extract_brand_from_jsonld (ld_json numeric_brand_page) = JInt 5
  /\ detect_brand size_url numeric_brand_page = Raise AttributeError
  /\ extract_price_from_scripts numeric_brand_page = None.
Proof. vm_compute. repeat split; reflexivity. Qed.

(* ------------------------------------------------------------------ *)
(** ** Images                                                          *)
(* ------------------------------------------------------------------ *)

Section KeyOrder.

Lemma key_lt_spec (a b : candidate) :
  key_lt a b = true <->
  (c_score a < c_score b \/ (c_score a = c_score b /\ c_area a < c_area b))%Z.
Proof.
  unfold key_lt. rewrite orb_true_iff, andb_true_iff.
  rewrite !Z.ltb_lt, Z.eqb_eq. tauto.
Qed.

Lemma ranks_before_spec (a b : candidate) :
  ranks_before a b <->
  (c_score b < c_score a \/ (c_score a = c_score b /\ c_area b <= c_area a))%Z.
Proof.
  unfold ranks_before. destruct (key_lt a b) eqn:E.
  - apply key_lt_spec in E. split; [discriminate | lia].
  - split; auto. intros _.
    assert (H : ~ (c_score a < c_score b
                   \/ (c_score a = c_score b /\ c_area a < c_area b))%Z).
    { rewrite <- key_lt_spec. congruence. }
    lia.
Qed.

Lemma ranks_before_trans (a b c : candidate) :
  ranks_before a b -> ranks_before b c -> ranks_before a c.
Proof. rewrite !ranks_before_spec. lia. Qed.

Lemma key_lt_ranks_before (a b : candidate) :
  key_lt a b = true -> ranks_before b a.
Proof. rewrite key_lt_spec, ranks_before_spec. lia. Qed.

End KeyOrder.

Section Sorting.

Lemma insert_desc_perm (x : candidate) (l : list candidate) :
  Permutation (insert_desc x l) (x :: l).
Proof.
  induction l as [|y r IH]; simpl; auto.
  destruct (key_lt x y); auto.
  rewrite IH. apply perm_swap.
Qed.

Lemma sort_desc_perm (l : list candidate) : Permutation (sort_desc l) l.
Proof.
  induction l as [|x r IH]; simpl; auto.
  rewrite insert_desc_perm. now constructor.
Qed.

Lemma insert_desc_sorted (x : candidate) (l : list candidate) :
  StronglySorted ranks_before l -> StronglySorted ranks_before (insert_desc x l).
Proof.
  induction 1 as [|y r Hs IH Hall]; simpl.
  - repeat constructor.
  - destruct (key_lt x y) eqn:E.
    + constructor; auto.
      eapply Permutation_Forall.
      * symmetry. apply insert_desc_perm.
      * constructor; auto. now apply key_lt_ranks_before.
    + constructor.
      * now constructor.
      * constructor; auto.
        eapply Forall_impl; [|exact Hall].
        intros c Hc. eapply ranks_before_trans; eauto.
Qed.

Lemma sort_desc_sorted (l : list candidate) :
  StronglySorted ranks_before (sort_desc l).
Proof.
  induction l as [|x r IH]; simpl.
  - constructor.
  - now apply insert_desc_sorted.
Qed.

End Sorting.

Section Sublists.

Context {A : Type}.

Lemma Forall_firstn (P : A -> Prop) (n : nat) (l : list A) :
  Forall P l -> Forall P (firstn n l).
Proof.
  intros H. revert n. induction H; intros [|n]; simpl; auto.
Qed.

Lemma Forall_filter_keeps (P : A -> Prop) (f : A -> bool) (l : list A) :
  Forall P l -> Forall P (filter f l).
Proof.
  induction 1; simpl; auto. destruct (f x); auto.
Qed.

Lemma sorted_firstn (R : A -> A -> Prop) (n : nat) (l : list A) :
  StronglySorted R l -> StronglySorted R (firstn n l).
Proof.
  intros H. revert n. induction H; intros [|n]; simpl; try constructor; auto.
  now apply Forall_firstn.
Qed.

Lemma sorted_filter (R : A -> A -> Prop) (f : A -> bool) (l : list A) :
  StronglySorted R l -> StronglySorted R (filter f l).
Proof.
  induction 1; simpl; try constructor.
  destruct (f a); auto. constructor; auto.
  now apply Forall_filter_keeps.
Qed.

(** A sorted list is sorted for any order that agrees on its elements. *)
Lemma sorted_among (P : A -> Prop) (R R' : A -> A -> Prop) (l : list A) :
  (forall a b, P a -> P b -> R a b -> R' a b) ->
  Forall P l -> StronglySorted R l -> StronglySorted R' l.
Proof.
  intros HR HP Hs. induction Hs as [|a l Hs IH Hall]; constructor.
  - apply IH. now inversion HP.
  - inversion HP as [|? ? Pa Pl]; subst.
    rewrite Forall_forall in *. intros b Hb. apply HR; auto.
Qed.

Context {B : Type} (g : A -> B).

Lemma NoDup_map_firstn (n : nat) (l : list A) :
  NoDup (map g l) -> NoDup (map g (firstn n l)).
Proof.
  revert n. induction l as [|a l IH]; intros [|n] H; simpl; try constructor.
  - inversion H as [|? ? Hnot Hn]; subst. intros Hin. apply Hnot.
    apply in_map_iff in Hin. destruct Hin as [b [E Hb]].
    apply in_map_iff. exists b. split; auto.
    clear - Hb. revert n Hb. induction l as [|c l IHl]; intros [|n] Hb;
      simpl in *; try tauto. destruct Hb; eauto.
  - apply IH. now inversion H.
Qed.

Lemma NoDup_map_filter (f : A -> bool) (l : list A) :
  NoDup (map g l) -> NoDup (map g (filter f l)).
Proof.
  induction l as [|a l IH]; intros H; simpl; auto.
  inversion H as [|? ? Hnot Hn]; subst.
  destruct (f a); simpl; auto. constructor; auto.
  intros Hin. apply Hnot.
  apply in_map_iff in Hin. destruct Hin as [b [E Hb]].
  apply filter_In in Hb. apply in_map_iff. exists b. tauto.
Qed.

End Sublists.

Section Sources.

Lemma prefix_lower (a s : string) :
  prefix a s = true -> prefix (lower a) (lower s) = true.
Proof.
  revert s. induction a as [|c a IH]; intros [|d s]; simpl; auto.
  destruct (ascii_dec c d) as [->|]; [|discriminate].
  intros H. destruct (ascii_dec (lower_char d) (lower_char d)); [|congruence].
  now apply IH.
Qed.

Lemma contains_lower (a s : string) :
  contains a s = true -> contains (lower a) (lower s) = true.
Proof.
  induction s as [|d s IH]; simpl; rewrite !orb_true_iff.
  - intros [H|H]; [|discriminate]. left. now apply (prefix_lower a EmptyString).
  - intros [H|H].
    + left. now apply (prefix_lower a (String d s)).
    + right. now apply IH.
Qed.

Lemma blocklist_is_lower_case : Forall (fun b => lower b = b) IMAGE_BLOCKLIST.
Proof. repeat constructor. Qed.

Lemma any_in_false (ks : list string) (s k : string) :
  any_in ks s = false -> In k ks -> contains k s = false.
Proof.
  unfold any_in. intros H Hk.
  destruct (contains k s) eqn:E; auto.
  assert (existsb (fun k => contains k s) ks = true)
    by (apply existsb_exists; eauto).
  congruence.
Qed.

Lemma passes_clean (s : string) : passes s = true -> clean_source s.
Proof.
  unfold passes, clean_source. rewrite !andb_true_iff, !negb_true_iff.
  intros [[Hh Hb] _]. split; auto.
  intros b Hin.
  assert (Hl : contains b (lower s) = false) by (eapply any_in_false; eauto).
  split; auto.
  destruct (contains b s) eqn:E; auto.
  apply contains_lower in E.
  pose proof blocklist_is_lower_case as Hlow.
  rewrite Forall_forall in Hlow. rewrite (Hlow b Hin) in E. congruence.
Qed.

Lemma points_nonneg (b : bool) (n : Z) : (0 <= n -> 0 <= points b n)%Z.
Proof. unfold points. destruct b; lia. Qed.

Lemma area_points_nonneg (area : Z) (hint : bool) : (0 <= area_points area hint)%Z.
Proof.
  unfold area_points.
  repeat match goal with |- context [if ?c then _ else _] => destruct c end; lia.
Qed.

Lemma score_of_nonneg (info : img_info) (s : string) (sl tl : list string) :
  (0 <= score_of info s sl tl)%Z.
Proof.
  unfold score_of.
  pose proof (area_points_nonneg (width info * height info)
                (any_in PRODUCT_KEYWORDS (lower (alt info))
                 || any_in PRODUCT_KEYWORDS (lower (className info)))).
  repeat match goal with
         | |- context [points ?b ?n] =>
             let H := fresh in
             assert (H : (0 <= points b n)%Z) by (apply points_nonneg; lia);
             generalize dependent (points b n); intros
         end.
  lia.
Qed.

Lemma collect_step_collected (sl tl : list string)
    (st : list candidate * list string) (info : img_info) :
  collected st -> collected (collect_step sl tl st info).
Proof.
  destruct st as [cands seen]. unfold collected, collect_step. simpl.
  intros [Hmap [Hnd Hall]].
  destruct (is_empty (src info)); [now auto|].
  destruct (passes (normalise (src info))) eqn:Ep; simpl; [|now auto].
  destruct (mem (normalise (src info)) seen) eqn:Em; [now auto|].
  apply mem_false in Em. simpl. repeat split.
  - rewrite map_app, Hmap. reflexivity.
  - now constructor.
  - apply Forall_app. split; auto.
    constructor; auto. simpl. split; auto. apply score_of_nonneg.
Qed.

Lemma fold_collected (sl tl : list string) (infos : list img_info)
    (st : list candidate * list string) :
  collected st -> collected (fold_left (collect_step sl tl) infos st).
Proof.
  revert st. induction infos as [|info infos IH]; intros st H; simpl; auto.
  apply IH. now apply collect_step_collected.
Qed.

Lemma survivors_collected (infos : list img_info) (u : url) (title : string) :
  NoDup (map c_src (survivors infos u title))
  /\ Forall (fun c => passes (c_src c) = true /\ (0 <= c_score c)%Z)
            (survivors infos u title).
Proof.
  unfold survivors, collect.
  destruct (fold_collected (slug_tokens_of u) (tokens (lower title)) infos ([], []))
    as [Hmap [Hnd Hall]].
  - repeat split; simpl; constructor.
  - split; auto. rewrite Hmap. now apply NoDup_rev.
Qed.

End Sources.

Section Ranking.

Lemma existsb_perm {A : Type} (f : A -> bool) (l l' : list A) :
  Permutation l l' -> existsb f l = existsb f l'.
Proof.
  induction 1; simpl; auto.
  - now rewrite IHPermutation.
  - destruct (f x), (f y); auto.
  - congruence.
Qed.

Lemma filter_nil_existsb {A : Type} (f : A -> bool) (l : list A) :
  filter f l = [] <-> existsb f l = false.
Proof.
  induction l as [|a l IH]; simpl; [tauto|].
  destruct (f a); simpl; [split; discriminate | exact IH].
Qed.

(** Which branch [select] takes. *)
Lemma select_positive (l : list candidate) :
  existsb positive l = true ->
  select l = firstn 10 (filter positive (sort_desc l)).
Proof.
  intros H. unfold select. fold positive.
  destruct (filter positive (sort_desc l)) eqn:E; auto.
  apply filter_nil_existsb in E.
  rewrite (existsb_perm positive _ l (sort_desc_perm l)) in E. congruence.
Qed.

Lemma select_fallback (l : list candidate) :
  existsb positive l = false -> select l = firstn 5 (sort_desc l).
Proof.
  intros H. unfold select. fold positive.
  rewrite <- (existsb_perm positive _ l (sort_desc_perm l)) in H.
  apply filter_nil_existsb in H. now rewrite H.
Qed.

Lemma select_cases (l : list candidate) :
  select l = firstn 10 (filter positive (sort_desc l))
  \/ select l = firstn 5 (sort_desc l).
Proof.
  destruct (existsb positive l) eqn:E;
    [left; now apply select_positive | right; now apply select_fallback].
Qed.

Lemma select_sorted (l : list candidate) : StronglySorted ranks_before (select l).
Proof.
  destruct (select_cases l) as [-> | ->].
  - apply sorted_firstn, sorted_filter, sort_desc_sorted.
  - apply sorted_firstn, sort_desc_sorted.
Qed.

Lemma select_Forall (P : candidate -> Prop) (l : list candidate) :
  Forall P l -> Forall P (select l).
Proof.
  intros H.
  assert (Hs : Forall P (sort_desc l)).
  { eapply Permutation_Forall; [symmetry; apply sort_desc_perm | exact H]. }
  destruct (select_cases l) as [-> | ->].
  - now apply Forall_firstn, Forall_filter_keeps.
  - now apply Forall_firstn.
Qed.

Lemma select_NoDup (l : list candidate) :
  NoDup (map c_src l) -> NoDup (map c_src (select l)).
Proof.
  intros H.
  assert (Hs : NoDup (map c_src (sort_desc l))).
  { eapply Permutation_NoDup; [|exact H].
    symmetry. apply Permutation_map, sort_desc_perm. }
  destruct (select_cases l) as [-> | ->].
  - now apply NoDup_map_firstn, NoDup_map_filter.
  - now apply NoDup_map_firstn.
Qed.

Lemma select_length (l : list candidate) : (List.length (select l) <= 10)%nat.
Proof.
  destruct (select_cases l) as [-> | ->]; rewrite length_firstn; lia.
Qed.

Lemma select_nonempty (l : list candidate) : l <> [] -> select l <> [].
Proof.
  intros Hl. unfold select.
  destruct (filter _ (sort_desc l)) eqn:E; [|simpl; discriminate].
  destruct (sort_desc l) eqn:Es; [|simpl; discriminate].
  exfalso. apply Hl. apply Permutation_nil.
  rewrite <- Es. apply sort_desc_perm.
Qed.

(** With no positive score every score is 0, and the key order is the
    order of the areas. *)
Lemma no_positive_all_zero (l : list candidate) :
  Forall (fun c => (0 <= c_score c)%Z) l ->
  existsb positive l = false ->
  Forall (fun c => c_score c = 0%Z) l.
Proof.
  intros Hall. induction Hall as [|c l Hc Hall IH]; simpl; auto.
  rewrite orb_false_iff. intros [Hp Hrest]. constructor; auto.
  unfold positive in Hp. apply Z.ltb_ge in Hp. lia.
Qed.

Lemma zero_scores_by_area (a b : candidate) :
  c_score a = 0%Z -> c_score b = 0%Z -> ranks_before a b -> larger_first a b.
Proof.
  unfold larger_first. rewrite ranks_before_spec. lia.
Qed.

End Ranking.

(** C6, as amended. For every list of element signals, URL and title,
    [extract_images_from_page] returns the sources of the kept candidates:
    no source twice, at most 10 of them, each starting with http (which is
    all that is asked of it) and holding no blocklisted text, in descending
    order of score, then of area.  The ranking is that of all surviving candidates sorted; when one
    of them has a positive score the kept ones are the first 10 of the
    positive, otherwise the first 5 of all, which is then the order of the
    areas; and something is kept whenever a candidate survived. *)
Theorem extract_images_from_page_ranked
    (infos : list img_info) (u : url) (title : string) :
  extract_images_from_page infos u title = map c_src (ranked infos u title)
  /\ NoDup (extract_images_from_page infos u title)
  /\ (List.length (extract_images_from_page infos u title) <= 10)%nat
  /\ Forall clean_source (extract_images_from_page infos u title)
  /\ StronglySorted ranks_before (ranked infos u title)
  /\ Permutation (sort_desc (survivors infos u title)) (survivors infos u title)
  /\ StronglySorted ranks_before (sort_desc (survivors infos u title))
  /\ (existsb positive (survivors infos u title) = true ->
      ranked infos u title
      = firstn 10 (filter positive (sort_desc (survivors infos u title))))
  /\ (existsb positive (survivors infos u title) = false ->
      ranked infos u title = firstn 5 (sort_desc (survivors infos u title))
      /\ StronglySorted larger_first (ranked infos u title))
  /\ (survivors infos u title <> [] -> extract_images_from_page infos u title <> []).
Proof.
  destruct (survivors_collected infos u title) as [Hnd Hall].
  assert (Hpass : Forall (fun c => passes (c_src c) = true) (survivors infos u title)).
  { eapply Forall_impl; [|exact Hall]. simpl. tauto. }
  assert (Hscore : Forall (fun c => (0 <= c_score c)%Z) (survivors infos u title)).
  { eapply Forall_impl; [|exact Hall]. simpl. tauto. }
  change (extract_images_from_page infos u title)
    with (map c_src (ranked infos u title)).
  unfold ranked.
  split; [reflexivity|].
  split; [now apply select_NoDup|].
  split; [rewrite length_map; apply select_length|].
  split.
  { apply Forall_map. apply select_Forall.
    eapply Forall_impl; [|exact Hpass]. intros c. apply passes_clean. }
  split; [apply select_sorted|].
  split; [apply sort_desc_perm|].
  split; [apply sort_desc_sorted|].
  split; [apply select_positive|].
  split.
  { intros Hnone. split; [now apply select_fallback|].
    apply sorted_among with (P := fun c => c_score c = 0%Z) (R := ranks_before).
    - apply zero_scores_by_area.
    - apply select_Forall. now apply no_positive_all_zero.
    - apply select_sorted. }
  intros Hne Hmap. apply map_eq_nil in Hmap.
  now apply (select_nonempty _ Hne).
Qed.

(** The example of the specification: a large hero picture is ranked, a
    small picture with no hint is left out of the positive branch, a payment
    badge is not a candidate. *)
Example hero_before_thumbnail :
  extract_images_from_page hero_infos size_url "Beige 204L"
  = ["https://cdn.example.com/hero.jpg"]
  /\ map c_src (survivors hero_infos size_url "Beige 204L")
     = ["https://cdn.example.com/thumb.jpg"; "https://cdn.example.com/hero.jpg"].
Proof. vm_compute. split; reflexivity. Qed.

(** The theorem at these elements, where a positive score exists. *)
Lemma extract_images_from_page_ranked_witness :
  existsb positive (survivors hero_infos size_url "Beige 204L") = true
  /\ ranked hero_infos size_url "Beige 204L"
     = firstn 10 (filter positive
                    (sort_desc (survivors hero_infos size_url "Beige 204L"))).
Proof.
  split; [vm_compute; reflexivity|].
  apply (extract_images_from_page_ranked hero_infos size_url "Beige 204L").
  vm_compute. reflexivity.
Defined.

(** C6, as stated, fails: a source is kept when it starts with http, and
    the relative source httpfoo.jpg does; it is returned, and it is no
    absolute URL. *)
Lemma relative_source_is_returned :
  extract_images_from_page lazy_infos size_url "Beige 204L" = ["httpfoo.jpg"]
  /\ absolute_url "httpfoo.jpg" = false.
Proof. split; vm_compute; reflexivity. Qed.

(* ================================================================== *)
(** * Part III. Further properties of the code                         *)
(* ================================================================== *)

(* ------------------------------------------------------------------ *)
(** ** The endpoint                                                    *)
(* ------------------------------------------------------------------ *)

Lemma scrape_returns_guarded_witness :
  scrape uk_raw hat_reply sample_time = Ok hat_record
  /\ (guarded VALID_CATEGORY (dict_get "category" hat_record)
      /\ guarded VALID_GENDER (dict_get "gender_target" hat_record)).
Proof.
  split; [reflexivity|].
  apply (scrape_returns_guarded uk_raw hat_reply sample_time hat_record).
  reflexivity.
Defined.

Example hat_is_cleared :
  dict_get "category" hat_record = Some JNull
  /\ dict_get "gender_target" hat_record = Some (JStr "unisex").
Proof. split; reflexivity. Qed.








Lemma scrape_keeps_fields (raw : raw_product) (response : option json)
    (now : string) (d : dict) :
  scrape raw response now = Ok d ->
  dict_get "source_domain" d = Some (JStr (host (raw_url raw)))
  /\ forall k : string,
       k <> "scraped_at" -> k <> "source_domain" ->
       k <> "category" -> k <> "gender_target" ->
       dict_get k d = cleaned_field k (clean_product_data raw response).
Proof.
  unfold scrape.
  destruct (clean_product_data raw response) as [[data|]|e]; simpl; try discriminate.
  destruct (not_in_set _ VALID_CATEGORY) as [c|]; simpl; try discriminate.
  destruct (not_in_set _ VALID_GENDER) as [g|]; simpl; try discriminate.
  intros H. inversion H; subst d. clear H. split.
  - destruct g, c; skip_sets; apply dict_get_set_same.
  - intros k H1 H2 H3 H4.
    destruct g, c; now rewrite !dict_get_set_other by assumption.
Qed.

Lemma scrape_ok_reply_is_object (raw : raw_product) (response : option json)
    (now : string) (d : dict) :
  scrape raw response now = Ok d -> exists cleaned, response = Some (JObj cleaned).
Proof.
  unfold scrape. destruct response as [[| | | | | |cleaned]|]; simpl;
    try discriminate. eauto.
Qed.

(** X2. A record the endpoint returns carries the time stamp under
    [scraped_at] and the host of the URL under [source_domain]; under every
    key but those two, [category] and [gender_target] it carries what the
    cleaner returned. *)
Theorem scrape_stamps_and_keeps (raw : raw_product) (response : option json)
    (now : string) (d : dict) :
  scrape raw response now = Ok d ->
  dict_get "scraped_at" d = Some (JStr now)
  /\ dict_get "source_domain" d = Some (JStr (host (raw_url raw)))
  /\ forall k : string,
       k <> "scraped_at" -> k <> "source_domain" ->
       k <> "category" -> k <> "gender_target" ->
       dict_get k d = cleaned_field k (clean_product_data raw response).
Proof.
  unfold scrape.
  destruct (clean_product_data raw response) as [[data|]|e]; simpl; try discriminate.
  destruct (not_in_set _ VALID_CATEGORY) as [c|]; simpl; try discriminate.
  destruct (not_in_set _ VALID_GENDER) as [g|]; simpl; try discriminate.
  intros H. inversion H; subst d. clear H. repeat split.
  - destruct g, c; skip_sets; try apply dict_get_set_same;
      rewrite dict_get_set_other by (intro; discriminate); apply dict_get_set_same.
  - destruct g, c; skip_sets; apply dict_get_set_same.
  - intros k H1 H2 H3 H4.
    destruct g, c; now rewrite !dict_get_set_other by assumption.
Qed.

Lemma scrape_stamps_and_keeps_witness :
  scrape uk_raw hat_reply sample_time = Ok hat_record
  /\ (dict_get "scraped_at" hat_record = Some (JStr sample_time)
      /\ dict_get "source_domain" hat_record = Some (JStr (host (raw_url uk_raw)))
      /\ forall k : string,
           k <> "scraped_at" -> k <> "source_domain" ->
           k <> "category" -> k <> "gender_target" ->
           dict_get k hat_record
           = cleaned_field k (clean_product_data uk_raw hat_reply)).
Proof.
  split; [reflexivity|].
  apply (scrape_stamps_and_keeps uk_raw hat_reply sample_time hat_record).
  reflexivity.
Defined.

(* ------------------------------------------------------------------ *)
(** ** The cleaner                                                     *)
(* ------------------------------------------------------------------ *)

Lemma infer_currency_known (raw : raw_product) : In (infer_currency raw) CURRENCIES.
Proof.
  unfold infer_currency, CURRENCIES.
  repeat match goal with |- context [if ?c then _ else _] => destruct c end;
    simpl; auto.
Qed.

Lemma currency_not_enforced : ~ In "currency" enforced_keys.
Proof. simpl. intros H. repeat destruct H as [H|H]; try discriminate H; assumption. Qed.

(** X4. In the record the cleaner returns for a reply that is an object, the
    currency is never empty: a non-empty currency of the reply is kept as it
    is, and otherwise the one inferred stands there, which is EUR, USD or
    GBP. *)
Theorem currency_is_never_empty (raw : raw_product) (cleaned : dict) :
  exists out,
    clean_product_data raw (Some (JObj cleaned)) = Ok (Some out)
    /\ dict_get "currency" out
       = (if truthy (py_get "currency" cleaned) then dict_get "currency" cleaned
          else Some (JStr (infer_currency raw)))
    /\ In (infer_currency raw) CURRENCIES
    /\ truthy (py_get "currency" out) = true.
Proof.
  eexists. split; [reflexivity|].
  assert (Hget : dict_get "currency" (enforce raw cleaned) = dict_get "currency" cleaned)
    by (apply enforce_other, currency_not_enforced).
  assert (Hpy : py_get "currency" (enforce raw cleaned) = py_get "currency" cleaned)
    by (now apply py_get_dict_get).
  assert (Hout : dict_get "currency"
                   (filter_style_tags (fill_currency raw (enforce raw cleaned)))
                 = (if truthy (py_get "currency" cleaned)
                    then dict_get "currency" cleaned
                    else Some (JStr (infer_currency raw)))).
  { rewrite filter_style_tags_other by (intro; discriminate).
    unfold fill_currency. rewrite Hpy.
    destruct (truthy (py_get "currency" cleaned)); auto.
    apply dict_get_set_same. }
  split; [exact Hout|]. split; [apply infer_currency_known|].
  unfold py_get at 1. rewrite Hout.
  destruct (truthy (py_get "currency" cleaned)) eqn:E.
  - unfold py_get in E. destruct (dict_get "currency" cleaned); auto.
  - pose proof (infer_currency_known raw) as Hin. simpl in Hin.
    destruct Hin as [<-|[<-|[<-|[]]]]; reflexivity.
Qed.

(** X5. The filter keeps exactly the allowed tags that some text of the
    reply's list matches once trimmed, whatever the case: nothing outside
    the vocabulary gets in, and no tag that matches is lost. *)
Theorem filter_tags_keeps_exactly (tags : list json) (a : string) :
  In a (filter_tags tags)
  <-> In a ALLOWED_STYLE_TAGS
      /\ exists s, In (JStr s) tags /\ lower (strip s) = lower a.
Proof. rewrite filter_tags_first_seen. apply first_seen_matches. Qed.

Lemma canonical_of_allowed :
  Forall (fun a => canonical (JStr a) = [a]) ALLOWED_STYLE_TAGS.
Proof. repeat constructor. Qed.

Lemma flat_map_canonical_allowed (k : list string) :
  incl k ALLOWED_STYLE_TAGS -> flat_map canonical (map JStr k) = k.
Proof.
  induction k as [|a k IH]; intros Hincl; auto.
  cbn [map flat_map].
  pose proof canonical_of_allowed as Hc. rewrite Forall_forall in Hc.
  rewrite (Hc a) by (apply Hincl; now left).
  cbn [app]. f_equal. apply IH. intros x Hx. apply Hincl. now right.
Qed.

Lemma fold_add_new_fresh (k acc : list string) :
  NoDup (acc ++ k) -> fold_left add_new k acc = (acc ++ k)%list.
Proof.
  revert acc. induction k as [|a k IH]; intros acc H; simpl.
  - now rewrite app_nil_r.
  - assert (Ha : mem a acc = false).
    { apply mem_false. intros Hin.
      apply NoDup_remove_2 in H. apply H. apply in_or_app. now left. }
    unfold add_new at 2. rewrite Ha.
    rewrite IH; rewrite <- app_assoc; auto.
  Qed.

(** X6. Filtering is idempotent: the list the filter gives passes through
    the filter unchanged. *)
Theorem filter_tags_idempotent (tags : list json) :
  filter_tags (map JStr (filter_tags tags)) = filter_tags tags.
Proof.
  rewrite (filter_tags_first_seen (map JStr _)).
  unfold first_seen at 1.
  rewrite flat_map_canonical_allowed.
  - unfold dedup. rewrite fold_add_new_fresh; auto.
    simpl. rewrite filter_tags_first_seen. apply dedup_NoDup.
  - rewrite filter_tags_first_seen. apply first_seen_allowed.
Qed.

(** X7. A [style_tags] of the reply that is not empty and is not a list is
    not filtered: the cleaner returns it as the reply gave it, whatever it
    holds. *)
Theorem style_tags_not_a_list_is_kept (raw : raw_product) (cleaned : dict) :
  truthy (py_get "style_tags" cleaned) = true ->
  is_list (py_get "style_tags" cleaned) = false ->
  cleaned_field "style_tags" (clean_product_data raw (Some (JObj cleaned)))
  = dict_get "style_tags" cleaned.
Proof.
  intros Ht Hl. simpl.
  assert (Hs : style_tags_or_empty (fill_currency raw (enforce raw cleaned))
               = py_get "style_tags" cleaned).
  { rewrite style_tags_or_empty_after_enforce. unfold style_tags_or_empty.
    now rewrite Ht. }
  unfold filter_style_tags. fold (style_tags_or_empty (fill_currency raw (enforce raw cleaned))).
  rewrite Hs.
  destruct (py_get "style_tags" cleaned) eqn:E; try discriminate Hl;
    rewrite fill_currency_other by (intro; discriminate);
    apply enforce_other; simpl; intros H;
    repeat destruct H as [H|H]; try discriminate H; assumption.
Qed.

Lemma style_tags_not_a_list_is_kept_witness :
  truthy (py_get "style_tags" [("style_tags", JStr "#punk, #y2k")]) = true
  /\ is_list (py_get "style_tags" [("style_tags", JStr "#punk, #y2k")]) = false
  /\ cleaned_field "style_tags"
       (clean_product_data uk_raw (Some (JObj [("style_tags", JStr "#punk, #y2k")])))
     = dict_get "style_tags" [("style_tags", JStr "#punk, #y2k")].
Proof.
  split; [reflexivity|]. split; [reflexivity|].
  apply (style_tags_not_a_list_is_kept uk_raw [("style_tags", JStr "#punk, #y2k")]);
    reflexivity.
Defined.

(* ------------------------------------------------------------------ *)
(** ** Trimming and case                                               *)
(* ------------------------------------------------------------------ *)

Lemma upper_char_space (c : ascii) : is_space (upper_char c) = is_space c.
Proof. destruct c as [[] [] [] [] [] [] [] []]; reflexivity. Qed.

Lemma lower_char_space (c : ascii) : is_space (lower_char c) = is_space c.
Proof. destruct c as [[] [] [] [] [] [] [] []]; reflexivity. Qed.

Lemma upper_char_idempotent (c : ascii) : upper_char (upper_char c) = upper_char c.
Proof. destruct c as [[] [] [] [] [] [] [] []]; reflexivity. Qed.

Lemma alpha_is_no_space (c : ascii) : is_alpha c = true -> is_space c = false.
Proof. destruct c as [[] [] [] [] [] [] [] []]; simpl; auto; discriminate. Qed.

Lemma upper_idempotent (s : string) : upper (upper s) = upper s.
Proof.
  unfold upper. induction s as [|c r IH]; simpl; auto.
  now rewrite upper_char_idempotent, IH.
Qed.

Lemma lstrip_upper (s : string) : lstrip (upper s) = upper (lstrip s).
Proof.
  unfold upper. induction s as [|c r IH]; simpl; auto.
  rewrite upper_char_space. destruct (is_space c); auto.
Qed.

Lemma is_empty_upper (s : string) : is_empty (upper s) = is_empty s.
Proof. now destruct s. Qed.

Lemma rstrip_upper (s : string) : rstrip (upper s) = upper (rstrip s).
Proof.
  induction s as [|c r IH]; auto.
  change (upper (String c r)) with (String (upper_char c) (upper r)).
  cbn [rstrip]. rewrite IH, is_empty_upper, upper_char_space.
  destruct (is_space c && is_empty (rstrip r)); auto.
Qed.

Lemma strip_upper (s : string) : strip (upper s) = upper (strip s).
Proof. unfold strip. now rewrite lstrip_upper, rstrip_upper. Qed.

Lemma rstrip_idempotent (s : string) : rstrip (rstrip s) = rstrip s.
Proof.
  induction s as [|c r IH]; simpl; auto.
  destruct (is_space c && is_empty (rstrip r)) eqn:E; simpl; auto.
  now rewrite IH, E.
Qed.

Lemma lstrip_starts_clean (s : string) : starts_clean (lstrip s).
Proof.
  induction s as [|c r IH]; simpl; auto.
  destruct (is_space c) eqn:E; simpl; auto.
Qed.

Lemma rstrip_starts_clean (s : string) : starts_clean s -> starts_clean (rstrip s).
Proof.
  destruct s as [|c r]; simpl; auto.
  intros H. rewrite H. simpl. exact H.
Qed.

Lemma lstrip_clean (s : string) : starts_clean s -> lstrip s = s.
Proof.
  destruct s as [|c r]; simpl; auto. now intros ->.
Qed.

Lemma strip_starts_clean (s : string) : starts_clean (strip s).
Proof. apply rstrip_starts_clean, lstrip_starts_clean. Qed.

(** Trimming twice is trimming once. *)
Lemma strip_idempotent (s : string) : strip (strip s) = strip s.
Proof.
  unfold strip at 1. rewrite lstrip_clean by apply strip_starts_clean.
  unfold strip. apply rstrip_idempotent.
Qed.

Lemma is_empty_title_go (b : bool) (s : string) : is_empty (title_go b s) = is_empty s.
Proof. destruct s as [|c r]; simpl; auto. now destruct (is_alpha c). Qed.

Lemma rstrip_title_go (b : bool) (s : string) :
  rstrip (title_go b s) = title_go b (rstrip s).
Proof.
  revert b. induction s as [|c r IH]; intros b; simpl; auto.
  destruct (is_alpha c) eqn:Ea.
  - pose proof (alpha_is_no_space c Ea) as Hs.
    cbn [rstrip]. rewrite IH, is_empty_title_go.
    assert (Hc : is_space (if b then lower_char c else upper_char c) = false).
    { destruct b; [rewrite lower_char_space | rewrite upper_char_space]; exact Hs. }
    rewrite Hc, Hs. simpl. now rewrite Ea.
  - cbn [rstrip]. rewrite IH, is_empty_title_go.
    destruct (is_space c && is_empty (rstrip r)); simpl; auto.
    now rewrite Ea.
Qed.

Lemma title_go_starts_clean (b : bool) (s : string) :
  starts_clean s -> starts_clean (title_go b s).
Proof.
  destruct s as [|c r]; simpl; auto.
  intros H. destruct (is_alpha c); simpl; auto.
  destruct b; [rewrite lower_char_space | rewrite upper_char_space]; exact H.
Qed.

(** Title-casing a trimmed text gives a trimmed text. *)
Lemma title_strip_trimmed (s : string) : trimmed (title (strip s)).
Proof.
  unfold trimmed, title. unfold strip at 1.
  rewrite lstrip_clean by apply title_go_starts_clean, strip_starts_clean.
  rewrite rstrip_title_go. f_equal.
  unfold strip. apply rstrip_idempotent.
Qed.

(* ------------------------------------------------------------------ *)
(** ** Sizes                                                           *)
(* ------------------------------------------------------------------ *)

Lemma normal_form_fixed (t : string) :
  upper (strip (upper (strip t))) = upper (strip t).
Proof. now rewrite strip_upper, strip_idempotent, upper_idempotent. Qed.

Lemma valid_normal_form (t : string) :
  is_valid_size_token (upper (strip t)) = is_valid_size_token t.
Proof. unfold is_valid_size_token. now rewrite normal_form_fixed. Qed.

(** X8. Normalising a size token (trim, upper case) changes neither its
    validity nor, when done again, its normal form: validation and
    normalisation applied twice give what they give once. *)
Theorem size_normalisation_idempotent (token : string) :
  is_valid_size_token (upper (strip token)) = is_valid_size_token token
  /\ upper (strip (upper (strip token))) = upper (strip token).
Proof.
  split; [apply valid_normal_form | apply normal_form_fixed].
Qed.

Section SizeSet.

Lemma insert_str_In (x y : string) (l : list string) :
  In y (insert_str x l) <-> y = x \/ In y l.
Proof.
  induction l as [|a l IH]; simpl.
  - intuition congruence.
  - destruct (String.leb x a); simpl; [intuition congruence|].
    rewrite IH. intuition congruence.
Qed.

Lemma sorted_strings_In (y : string) (l : list string) :
  In y (sorted_strings l) <-> In y l.
Proof.
  unfold sorted_strings. induction l as [|a l IH]; simpl; [tauto|].
  rewrite insert_str_In, IH. intuition congruence.
Qed.

Lemma insert_str_perm (x : string) (l : list string) :
  Permutation (insert_str x l) (x :: l).
Proof.
  induction l as [|a l IH]; simpl; auto.
  destruct (String.leb x a); auto.
  rewrite IH. apply perm_swap.
Qed.

Lemma sorted_strings_perm (l : list string) : Permutation (sorted_strings l) l.
Proof.
  unfold sorted_strings. induction l as [|a l IH]; simpl; auto.
  rewrite insert_str_perm. now constructor.
Qed.

Lemma insert_str_sorted (x : string) (l : list string) :
  Sorted text_le l -> Sorted text_le (insert_str x l).
Proof.
  induction 1 as [|a l Hs IH Hhd]; simpl.
  - repeat constructor.
  - destruct (String.leb x a) eqn:E.
    + repeat constructor; auto.
    + constructor; auto.
      assert (Hax : text_le a x).
      { unfold text_le. destruct (String.leb_total x a) as [H|H]; congruence. }
      destruct l as [|b l]; simpl.
      * repeat constructor. exact Hax.
      * destruct (String.leb x b); constructor; auto.
        now inversion Hhd.
Qed.

Lemma sorted_strings_sorted (l : list string) : Sorted text_le (sorted_strings l).
Proof.
  unfold sorted_strings. induction l as [|a l IH]; simpl.
  - constructor.
  - now apply insert_str_sorted.
Qed.

Lemma set_add_In (x y : string) (s : list string) :
  In y (set_add x s) <-> In y s \/ y = x.
Proof. exact (add_new_In s x y). Qed.

Lemma set_add_NoDup (x : string) (s : list string) : NoDup s -> NoDup (set_add x s).
Proof. exact (add_new_NoDup s x). Qed.

(** The set the size loops build, before it is sorted. *)
Lemma size_set_spec (texts acc : list string) (y : string) :
  In y (fold_left (fun sizes t =>
                     if is_valid_size_token t then set_add (upper (strip t)) sizes
                     else sizes) texts acc)
  <-> In y acc
      \/ exists t, In t texts /\ is_valid_size_token t = true /\ y = upper (strip t).
Proof.
  revert acc. induction texts as [|t texts IH]; intros acc; simpl.
  - split; auto. intros [H|[t [[] _]]]; auto.
  - rewrite IH. destruct (is_valid_size_token t) eqn:E.
    + rewrite set_add_In. split.
      * intros [[H|H]|[t' [H1 H2]]]; eauto 7.
      * intros [H|[t' [[->|H1] [H2 H3]]]]; eauto 7.
    + split.
      * intros [H|[t' [H1 H2]]]; eauto 7.
      * intros [H|[t' [[->|H1] [H2 H3]]]]; eauto 7. congruence.
Qed.

Lemma size_set_NoDup (texts acc : list string) :
  NoDup acc ->
  NoDup (fold_left (fun sizes t =>
                      if is_valid_size_token t then set_add (upper (strip t)) sizes
                      else sizes) texts acc).
Proof.
  revert acc. induction texts as [|t texts IH]; intros acc H; simpl; auto.
  apply IH. destruct (is_valid_size_token t); auto. now apply set_add_NoDup.
Qed.

End SizeSet.

(** X9. The sizes of the raw record are the normal forms of the valid
    texts, and nothing else; they come in ascending order, each once, and
    each of them is itself a valid token in normal form. *)
Theorem collect_sizes_spec (texts : list string) :
  (forall y : string,
     In y (collect_sizes texts)
     <-> exists t, In t texts /\ is_valid_size_token t = true /\ y = upper (strip t))
  /\ Sorted text_le (collect_sizes texts)
  /\ NoDup (collect_sizes texts)
  /\ Forall (fun y => is_valid_size_token y = true /\ upper (strip y) = y)
            (collect_sizes texts).
Proof.
  assert (Hin : forall y : string,
             In y (collect_sizes texts)
             <-> exists t, In t texts /\ is_valid_size_token t = true
                           /\ y = upper (strip t)).
  { intros y. unfold collect_sizes. rewrite sorted_strings_In, size_set_spec.
    simpl. tauto. }
  split; [exact Hin|]. split; [apply sorted_strings_sorted|]. split.
  - unfold collect_sizes. eapply Permutation_NoDup.
    + symmetry. apply sorted_strings_perm.
    + apply size_set_NoDup. constructor.
  - apply Forall_forall. intros y Hy. apply Hin in Hy.
    destruct Hy as [t [_ [Hv ->]]].
    split; [now rewrite valid_normal_form | apply normal_form_fixed].
Qed.

(* ------------------------------------------------------------------ *)
(** ** Brand                                                           *)
(* ------------------------------------------------------------------ *)

Lemma detect_brand_trimmed (u : url) (m : markup) (b : string) :
  detect_brand u m = Ok b -> trimmed b.
Proof.
  unfold detect_brand.
  destruct (truthy (extract_brand_from_jsonld (ld_json m))).
  - destruct (extract_brand_from_jsonld (ld_json m)); try discriminate.
    intros H. inversion H. apply strip_idempotent.
  - intros H. inversion H. apply title_strip_trimmed.
Qed.


(** X11. Blocks of JSON-LD that do not parse, are no object or list, or
    hold no brand do not change the brand read: the blocks after them
    decide. *)
Theorem brandless_blocks_are_skipped (pre blocks : list (option json)) :
  forallb brandless pre = true ->
  extract_brand_from_jsonld (pre ++ blocks) = extract_brand_from_jsonld blocks.
Proof.
  induction pre as [|b pre IH]; simpl; auto.
  rewrite andb_true_iff. intros [Hb Hpre].
  destruct b as [[| | | | |items|d]|]; simpl in *; auto.
  - destruct (first_item_brand items); [discriminate Hb | auto].
  - apply negb_true_iff in Hb. rewrite Hb. auto.
Qed.

Lemma brandless_blocks_are_skipped_witness :
  forallb brandless noisy_blocks = true
  /\ extract_brand_from_jsonld (noisy_blocks ++ nike_blocks)
     = extract_brand_from_jsonld nike_blocks.
Proof.
  split; [reflexivity|].
  apply (brandless_blocks_are_skipped noisy_blocks nike_blocks). reflexivity.
Defined.

Example nike_is_trimmed :
  detect_brand shop_url {| html := ""; ld_json := (noisy_blocks ++ nike_blocks)%list |}
  = Ok "Nike".
Proof. reflexivity. Qed.

(** X12. When the JSON-LD gives no brand and the first label of the host
    holds a character that is not white space and is none of the letters of
    the removed fragments (c, e, h, k, o, p, s, u), the brand returned is
    not empty. *)
Theorem detect_brand_fallback_nonempty (u : url) (m : markup) (c : ascii) :
  truthy (extract_brand_from_jsonld (ld_json m)) = false ->
  has_char c (first_label u) = true ->
  is_space c = false ->
  has_char c FRAGMENT_CHARS = false ->
  exists b, detect_brand u m = Ok b /\ b <> EmptyString.
Proof.
  intros Hb Hc Hs Hf. unfold detect_brand. rewrite Hb.
  eexists. split; [reflexivity|].
  rewrite title_empty. intros He.
  assert (H : has_char c (strip (domain_label u)) = true).
  { apply strip_keeps; auto. unfold domain_label.
    now apply strip_fragments_keeps. }
  rewrite He in H. discriminate H.
Qed.

Lemma detect_brand_fallback_nonempty_witness :
  truthy (extract_brand_from_jsonld (ld_json no_markup)) = false
  /\ has_char "z" (first_label size_url) = true
  /\ is_space "z" = false
  /\ has_char "z" FRAGMENT_CHARS = false
  /\ exists b, detect_brand size_url no_markup = Ok b /\ b <> EmptyString.
Proof.
  repeat (split; [reflexivity|]).
  apply (detect_brand_fallback_nonempty size_url no_markup "z"); reflexivity.
Defined.

(* ------------------------------------------------------------------ *)
(** ** Price                                                           *)
(* ------------------------------------------------------------------ *)

Section Matching.

Lemma drop_prefix_shorter (l s s' : string) :
  drop_prefix l s = Some s' -> (String.length s' <= String.length s)%nat.
Proof.
  revert s. induction l as [|a l IH]; intros s; simpl.
  - intros H. inversion H. lia.
  - destruct s as [|b s]; [discriminate|].
    destruct (Ascii.eqb a b); [|discriminate].
    intros H. apply IH in H. simpl. lia.
Qed.

Lemma star_try_resumes (k : string -> option string) (c : ascii -> bool)
    (s g : string) :
  star_try k c s = Some g ->
  exists s', (String.length s' <= String.length s)%nat /\ k s' = Some g.
Proof.
  induction s as [|a r IH]; simpl.
  - intros H. exists EmptyString. auto.
  - destruct (c a).
    + destruct (star_try k c r) eqn:E.
      * intros H. inversion H; subst. destruct (IH eq_refl) as [s' [Hl Hk]].
        exists s'. split; auto.
      * intros H. exists (String a r). auto.
    + intros H. exists (String a r). auto.
Qed.

Lemma alt_try_resumes (k : string -> option string) (alts : list string)
    (s g : string) :
  alt_try k alts s = Some g ->
  exists s', (String.length s' <= String.length s)%nat /\ k s' = Some g.
Proof.
  induction alts as [|a alts IH]; simpl; [discriminate|].
  destruct (drop_prefix a s) as [s'|] eqn:E; auto.
  destruct (k s') eqn:Ek; auto.
  intros H. inversion H; subst. exists s'. split; auto.
  eapply drop_prefix_shorter; eauto.
Qed.

(** Plain pieces consume text and hand over to the rest of the pattern. *)
Lemma match_plain (q rest : list rx) (gs cap s g : string) :
  plain q = true ->
  match_at (q ++ rest) gs cap s = Some g ->
  exists s', (String.length s' <= String.length s)%nat
             /\ match_at rest gs cap s' = Some g.
Proof.
  revert s. induction q as [|r q IH]; intros s Hp H.
  - exists s. auto.
  - simpl in Hp. apply andb_true_iff in Hp. destruct Hp as [Hr Hq].
    destruct r; try discriminate Hr; cbn [app match_at] in H.
    + destruct (drop_prefix s0 s) as [s1|] eqn:E; [|discriminate].
      apply drop_prefix_shorter in E.
      destruct (IH s1 Hq H) as [s' [Hl Hm]]. exists s'. split; auto. lia.
    + apply star_try_resumes in H. destruct H as [s1 [Hl1 H]].
      destruct (IH s1 Hq H) as [s' [Hl Hm]]. exists s'. split; auto. lia.
    + destruct s as [|a s1]; [discriminate|].
      destruct (c a); [|discriminate].
      apply star_try_resumes in H. destruct H as [s2 [Hl2 H]].
      destruct (IH s2 Hq H) as [s' [Hl Hm]]. exists s'. split; auto. simpl. lia.
    + apply alt_try_resumes in H. destruct H as [s1 [Hl1 H]].
      destruct (IH s1 Hq H) as [s' [Hl Hm]]. exists s'. split; auto. lia.
Qed.

Lemma match_plain_keeps_group (q : list rx) (gs cap s g : string) :
  plain q = true -> match_at q gs cap s = Some g -> g = cap.
Proof.
  intros Hp H. rewrite <- (app_nil_r q) in H.
  apply match_plain in H; auto. destruct H as [s' [_ H]].
  simpl in H. congruence.
Qed.

Lemma substring_nonempty (n : nat) (s : string) :
  (0 < n)%nat -> s <> EmptyString -> substring 0 n s <> EmptyString.
Proof.
  destruct s as [|a r]; [congruence|]. destruct n; [lia|]. simpl. discriminate.
Qed.

(** The group of a pattern that holds a [c+] is never empty. *)
Lemma grouped_nonempty (pre mid1 : list rx) (c : ascii -> bool) (mid2 post : list rx)
    (gs cap s g : string) :
  plain pre = true -> plain mid1 = true -> plain mid2 = true -> plain post = true ->
  match_at (grouped pre mid1 c mid2 post) gs cap s = Some g ->
  g <> EmptyString.
Proof.
  intros Hpre Hm1 Hm2 Hpost H. unfold grouped in H.
  apply match_plain in H; auto. destruct H as [s1 [_ H]].
  cbn [match_at] in H.
  apply match_plain in H; auto. destruct H as [s2 [Hl2 H]].
  cbn [match_at] in H.
  destruct s2 as [|a r]; [discriminate|].
  destruct (c a); [|discriminate].
  apply star_try_resumes in H. destruct H as [s3 [Hl3 H]].
  apply match_plain in H; auto. destruct H as [s4 [Hl4 H]].
  cbn [match_at] in H.
  apply match_plain_keeps_group in H; auto. subst g.
  simpl in Hl2.
  apply substring_nonempty; [lia|].
  destruct s1; [simpl in Hl2; lia | discriminate].
Qed.

Lemma search_matches (p : list rx) (s g : string) :
  search p s = Some g ->
  exists s', match_at p EmptyString EmptyString s' = Some g.
Proof.
  induction s as [|a r IH]; simpl.
  - destruct (match_at p "" "" "") eqn:E; [|discriminate].
    intros H. inversion H; subst. eauto.
  - destruct (match_at p "" "" (String a r)) eqn:E.
    + intros H. inversion H; subst. eauto.
    + auto.
Qed.

End Matching.

Lemma quoted_field_grouped (key : string) :
  quoted_field key
  = grouped [RLit (dq ++ key ++ dq); RStar is_space; RLit ":"; RStar is_space; RLit dq]
            [] not_quote [] [RLit dq].
Proof. reflexivity. Qed.

(** Each of the eight patterns has a [c+] in its group. *)
Lemma patterns_grouped :
  Forall (fun p => exists pre mid1 c mid2 post,
              p = grouped pre mid1 c mid2 post
              /\ plain pre = true /\ plain mid1 = true
              /\ plain mid2 = true /\ plain post = true) patterns.
Proof.
  unfold patterns.
  repeat match goal with
         | |- Forall _ (quoted_field ?k :: _) =>
             constructor;
             [exists [RLit (dq ++ k ++ dq); RStar is_space; RLit ":"; RStar is_space; RLit dq],
                     [], not_quote, [], [RLit dq];
              repeat split; reflexivity|]
         end.
  - constructor.
    + exists [RLit (dq ++ "price" ++ dq ++ ":"); RStar is_space], [], is_digit,
             [RLit "."; RPlus is_digit], [].
      repeat split; reflexivity.
    + repeat match goal with
             | |- Forall _ (quoted_field ?k :: _) =>
                 constructor;
                 [exists [RLit (dq ++ k ++ dq); RStar is_space; RLit ":"; RStar is_space; RLit dq],
                         [], not_quote, [], [RLit dq];
                  repeat split; reflexivity|]
             end.
      constructor; [|constructor].
      exists [RLit (dq ++ "value" ++ dq); RStar is_space; RLit ":"; RStar is_space; RLit dq],
             [ROneOf ["£"; "$"; "€"]], amount_char, [], [RLit dq].
      repeat split; reflexivity.
Qed.

Lemma first_match_nonempty (ps : list (list rx)) (text g : string) :
  Forall (fun p => exists pre mid1 c mid2 post,
              p = grouped pre mid1 c mid2 post
              /\ plain pre = true /\ plain mid1 = true
              /\ plain mid2 = true /\ plain post = true) ps ->
  first_match ps text = Some g -> g <> EmptyString.
Proof.
  induction 1 as [|p ps Hp Hall IH]; simpl; [discriminate|].
  destruct (search p text) as [g'|] eqn:E.
  - intros H. inversion H; subst g'.
    destruct Hp as [pre [mid1 [c [mid2 [post [-> [H1 [H2 [H3 H4]]]]]]]]].
    apply search_matches in E. destruct E as [s' E].
    now apply (grouped_nonempty pre mid1 c mid2 post
                 EmptyString EmptyString s' g H1 H2 H3 H4).
  - exact IH.
Qed.

Lemma found_nonempty (price : option string) (p : string) :
  found price = Some p -> p <> EmptyString.
Proof.
  destruct price as [x|]; simpl; [|discriminate].
  destruct x; simpl; [discriminate|]. intros H. inversion H. discriminate.
Qed.

Lemma first_some_In {A : Type} (l : list (option A)) (a : A) :
  first_some l = Some a -> In (Some a) l.
Proof.
  induction l as [|[x|] l IH]; simpl; [discriminate| |auto].
  intros H. inversion H. now left.
Qed.

Lemma block_price_nonempty (block : option json) (p : string) :
  block_price block = Some p -> p <> EmptyString.
Proof.
  destruct block as [[| | | | |items|d]|]; simpl; try discriminate.
  - intros H. apply first_some_In, in_map_iff in H.
    destruct H as [item [H _]]. eapply found_nonempty; eauto.
  - apply found_nonempty.
Qed.

Lemma price_is_not_empty (m : markup) (p : string) :
  extract_price_from_scripts m = Some p -> p <> EmptyString.
Proof.
  unfold extract_price_from_scripts.
  destruct (first_match patterns (html m)) as [g|] eqn:E.
  - intros H. inversion H; subst g.
    exact (first_match_nonempty patterns (html m) p patterns_grouped E).
  - rewrite offers_price_first_some. intros H.
    apply first_some_In, in_map_iff in H. destruct H as [b [H _]].
    eapply block_price_nonempty; eauto.
Qed.

(** X13. A price [extract_price_from_scripts] returns is never the empty
    text: the group of every pattern holds at least one character, and an
    empty [offers.price] is passed over. *)
Theorem extracted_price_is_not_empty (m : markup) (p : string) :
  extract_price_from_scripts m = Some p -> p <> EmptyString.
Proof.
  unfold extract_price_from_scripts.
  destruct (first_match patterns (html m)) as [g|] eqn:E.
  - intros H. inversion H; subst g.
    exact (first_match_nonempty patterns (html m) p patterns_grouped E).
  - rewrite offers_price_first_some. intros H.
    apply first_some_In, in_map_iff in H. destruct H as [b [H _]].
    eapply block_price_nonempty; eauto.
Qed.

Lemma extracted_price_is_not_empty_witness :
  extract_price_from_scripts two_prices_page = Some "20.00"
  /\ "20.00" <> EmptyString.
Proof.
  split; [vm_compute; reflexivity|].
  apply (extracted_price_is_not_empty two_prices_page "20.00").
  vm_compute. reflexivity.
Defined.

(* ------------------------------------------------------------------ *)
(** ** Images                                                          *)
(* ------------------------------------------------------------------ *)

Section Candidates.

Variables slug_tokens title_tokens : list string.

Lemma collect_step_sources (st : list candidate * list string) (info : img_info)
    (s : string) :
  collected st ->
  (In s (map c_src (fst (collect_step slug_tokens title_tokens st info)))
   <-> In s (map c_src (fst st))
       \/ (eligible info = true /\ s = normalise (src info))).
Proof.
  destruct st as [cands seen]. unfold collected, collect_step, eligible. simpl.
  intros [Hmap _].
  destruct (is_empty (src info)); simpl.
  { split; auto. intros [H|[H _]]; auto. discriminate H. }
  destruct (passes (normalise (src info))) eqn:Ep; simpl.
  2:{ split; auto. intros [H|[H _]]; auto. discriminate H. }
  destruct (mem (normalise (src info)) seen) eqn:Em; simpl.
  - split; auto. intros [H|[_ ->]]; auto.
    rewrite Hmap, <- in_rev. now apply mem_In.
  - rewrite map_app, in_app_iff. simpl. intuition congruence.
Qed.

Lemma fold_sources (infos : list img_info) (st : list candidate * list string)
    (s : string) :
  collected st ->
  (In s (map c_src (fst (fold_left (collect_step slug_tokens title_tokens) infos st)))
   <-> In s (map c_src (fst st))
       \/ exists info, In info infos /\ eligible info = true
                       /\ s = normalise (src info)).
Proof.
  revert st. induction infos as [|info infos IH]; intros st Hst; simpl.
  - split; auto. intros [H|[info [[] _]]]; auto.
  - rewrite IH by (now apply collect_step_collected).
    rewrite collect_step_sources by assumption. split.
    + intros [[H|[H1 H2]]|[i [H1 H2]]]; eauto 7.
    + intros [H|[i [[->|H1] [H2 H3]]]]; eauto 7.
Qed.

Lemma collect_step_candidates (P : candidate -> Prop)
    (st : list candidate * list string) (info : img_info) :
  P (candidate_of slug_tokens title_tokens info) ->
  Forall P (fst st) ->
  Forall P (fst (collect_step slug_tokens title_tokens st info)).
Proof.
  destruct st as [cands seen]. unfold collect_step. simpl. intros Hc Hall.
  destruct (is_empty (src info)); auto.
  destruct (passes (normalise (src info))); simpl; auto.
  destruct (mem (normalise (src info)) seen); simpl; auto.
  apply Forall_app. split; auto.
Qed.

Lemma fold_candidates (P : candidate -> Prop) (infos : list img_info)
    (st : list candidate * list string) :
  (forall info, P (candidate_of slug_tokens title_tokens info)) ->
  Forall P (fst st) ->
  Forall P (fst (fold_left (collect_step slug_tokens title_tokens) infos st)).
Proof.
  intros HP. revert st. induction infos as [|info infos IH]; intros st H; simpl; auto.
  apply IH. now apply collect_step_candidates.
Qed.

End Candidates.

Lemma survivors_Forall (P : candidate -> Prop) (infos : list img_info) (u : url)
    (title : string) :
  (forall info, P (candidate_of (slug_tokens_of u) (tokens (lower title)) info)) ->
  Forall P (survivors infos u title).
Proof.
  intros HP. unfold survivors, collect. apply fold_candidates; auto.
Qed.

Lemma firstn_within {A : Type} (n : nat) (l : list A) (x : A) :
  In x (firstn n l) -> In x l.
Proof.
  revert n. induction l as [|a l IH]; intros [|n]; simpl; try tauto.
  intros [H|H]; eauto.
Qed.

Lemma select_incl (l : list candidate) : incl (select l) l.
Proof.
  intros c Hc.
  apply (Permutation_in c (sort_desc_perm l)).
  destruct (select_cases l) as [E|E]; rewrite E in Hc.
  - apply firstn_within in Hc. apply filter_In in Hc. tauto.
  - now apply firstn_within in Hc.
Qed.

(** X14. The surviving candidates are exactly the elements with a source
    that, made absolute, passes the filters; and every URL returned is the
    source, made absolute, of such an element: none is made up, and none
    that passes is lost before the ranking. *)
Theorem survivors_are_the_eligible_sources
    (infos : list img_info) (u : url) (title : string) :
  (forall s : string,
     In s (map c_src (survivors infos u title))
     <-> exists info, In info infos /\ eligible info = true
                      /\ s = normalise (src info))
  /\ (forall s : string,
        In s (extract_images_from_page infos u title) ->
        exists info, In info infos /\ eligible info = true
                     /\ s = normalise (src info)).
Proof.
  assert (H : forall s : string,
             In s (map c_src (survivors infos u title))
             <-> exists info, In info infos /\ eligible info = true
                              /\ s = normalise (src info)).
  { intros s. unfold survivors, collect. rewrite fold_sources.
    - simpl. tauto.
    - repeat split; simpl; constructor. }
  split; [exact H|].
  intros s Hs. apply H.
  unfold extract_images_from_page in Hs. fold (survivors infos u title) in Hs.
  apply in_map_iff in Hs. destruct Hs as [c [<- Hc]].
  apply in_map. now apply select_incl.
Qed.

Lemma points_at_most (b : bool) (n : Z) : (0 <= n -> points b n <= n)%Z.
Proof. unfold points. destruct b; lia. Qed.

Lemma area_points_bounds (area : Z) (hint : bool) :
  (area_points area hint <= 8
   /\ (200 * 200 <= area -> 2 <= area_points area hint))%Z.
Proof.
  unfold area_points.
  destruct (800 * 800 <=? area)%Z eqn:E1; [lia|].
  destruct (600 * 600 <=? area)%Z eqn:E2; [lia|].
  destruct (400 * 400 <=? area)%Z eqn:E3; [lia|].
  destruct (200 * 200 <=? area)%Z eqn:E4; [lia|].
  apply Z.leb_gt in E4. destruct hint; lia.
Qed.

Lemma score_of_bounds (info : img_info) (s : string) (sl tl : list string) :
  (0 <= score_of info s sl tl <= 19
   /\ (200 * 200 <= width info * height info -> 2 <= score_of info s sl tl))%Z.
Proof.
  pose proof (score_of_nonneg info s sl tl) as Hlow.
  unfold score_of in *.
  pose proof (area_points_bounds (width info * height info)
                (any_in PRODUCT_KEYWORDS (lower (alt info))
                 || any_in PRODUCT_KEYWORDS (lower (className info)))) as [Ha1 Ha2].
  pose proof (area_points_nonneg (width info * height info)
                (any_in PRODUCT_KEYWORDS (lower (alt info))
                 || any_in PRODUCT_KEYWORDS (lower (className info)))) as Ha0.
  repeat match goal with
         | |- context [points ?b ?n] =>
             let H1 := fresh in let H2 := fresh in
             assert (H1 : (0 <= points b n)%Z) by (apply points_nonneg; lia);
             assert (H2 : (points b n <= n)%Z) by (apply points_at_most; lia);
             generalize dependent (points b n); intros
         end.
  lia.
Qed.

(** X15. The score of a surviving candidate lies between 0 and 19, and is at
    least 2 when its area reaches 200 x 200; so the fallback to the five
    largest is taken only when every surviving candidate is smaller than
    that. *)
Theorem fallback_only_for_small_images
    (infos : list img_info) (u : url) (title : string) :
  Forall (fun c => (0 <= c_score c <= 19)%Z
                   /\ (200 * 200 <= c_area c -> 2 <= c_score c)%Z)
         (survivors infos u title)
  /\ (existsb positive (survivors infos u title) = false ->
      Forall (fun c => (c_area c < 200 * 200)%Z) (survivors infos u title)).
Proof.
  assert (H : Forall (fun c => (0 <= c_score c <= 19)%Z
                               /\ (200 * 200 <= c_area c -> 2 <= c_score c)%Z)
                     (survivors infos u title)).
  { apply survivors_Forall. intros info. unfold candidate_of. simpl.
    apply score_of_bounds. }
  split; [exact H|].
  intros Hnone.
  assert (Hz : Forall (fun c => c_score c = 0%Z) (survivors infos u title)).
  { apply no_positive_all_zero; auto.
    eapply Forall_impl; [|exact H]. simpl. intros c [Hc _]. lia. }
  rewrite Forall_forall in *. intros c Hc.
  specialize (H c Hc). specialize (Hz c Hc). lia.
Qed.

Lemma insert_desc_stable (k x : candidate) (l : list candidate) :
  filter (same_key k) (insert_desc x l) = filter (same_key k) (x :: l).
Proof.
  induction l as [|y r IH]; auto.
  cbn [insert_desc]. destruct (key_lt x y) eqn:E; auto.
  cbn [filter]. rewrite IH. cbn [filter].
  destruct (same_key k x) eqn:Ex, (same_key k y) eqn:Ey; auto.
  exfalso. unfold same_key in *.
  apply andb_true_iff in Ex, Ey. destruct Ex as [X1 X2], Ey as [Y1 Y2].
  apply Z.eqb_eq in X1, X2, Y1, Y2. apply key_lt_spec in E. lia.
Qed.

(** X16. The sort is stable: candidates of equal score and area keep the
    order in which the page gave them. *)
Theorem sort_desc_stable (k : candidate) (l : list candidate) :
  filter (same_key k) (sort_desc l) = filter (same_key k) l.
Proof.
  induction l as [|x r IH]; auto.
  cbn [sort_desc]. rewrite insert_desc_stable. cbn [filter]. now rewrite IH.
Qed.

(* ------------------------------------------------------------------ *)
(** ** The page visit and the pipeline                                 *)
(* ------------------------------------------------------------------ *)

Lemma first_text_trimmed (nodes : list (option string)) (t : string) :
  first_text nodes = Some t -> trimmed t.
Proof.
  induction nodes as [|[x|] nodes IH]; simpl; [discriminate| |auto].
  intros H. inversion H. apply strip_idempotent.
Qed.

Lemma extracted_sources_clean (infos : list img_info) (u : url) (title : string) :
  Forall clean_source (extract_images_from_page infos u title).
Proof.
  unfold extract_images_from_page. fold (survivors infos u title).
  apply Forall_map. apply select_Forall.
  destruct (survivors_collected infos u title) as [_ Hall].
  eapply Forall_impl; [|exact Hall].
  intros c [Hc _]. now apply passes_clean.
Qed.

(** X17. [extract_raw_product_data] raises exactly when [detect_brand]
    does.  In the record it returns the URL is the one asked for; the title,
    the brand and the description have no white space at their ends; and
    the price is absent or not empty: the text of the price element when
    that is not empty, and otherwise what the scripts give. *)
Theorem raw_record_invariants (u : url) (p : page) :
  (forall e, extract_raw_product_data u p = Raise e
             <-> detect_brand u (content p) = Raise e)
  /\ (forall raw,
        extract_raw_product_data u p = Ok raw ->
        raw_url raw = u
        /\ trimmed (raw_brand raw)
        /\ (forall t, raw_title raw = Some t -> trimmed t)
        /\ (forall t, raw_description raw = Some t -> trimmed t)
        /\ raw_price raw <> Some EmptyString
        /\ raw_price raw
           = (if is_empty (text_of (first_text (price_nodes p)))
              then extract_price_from_scripts (content p)
              else first_text (price_nodes p))).
Proof.
  unfold extract_raw_product_data.
  destruct (detect_brand u (content p)) as [brand|e0] eqn:Eb; cbn [bind].
  - split.
    + intros e. split; discriminate.
    + intros raw H. inversion H; subst raw; clear H. cbn.
      split; [reflexivity|]. split.
      { now apply (detect_brand_trimmed u (content p)). }
      split; [apply first_text_trimmed|].
      split; [apply first_text_trimmed|].
      split; [|reflexivity].
      destruct (first_text (price_nodes p)) as [t|] eqn:Ep; cbn [text_of].
      * destruct (is_empty t) eqn:Et.
        -- intros H. now apply price_is_not_empty in H.
        -- intros H. inversion H; subst t. discriminate Et.
      * cbn [is_empty]. intros H. now apply price_is_not_empty in H.
  - split.
    + intros e. split; intros H; inversion H; reflexivity.
    + intros raw H. discriminate H.
Qed.

(** X18. A record the endpoint returns carries the ground truth of the
    page whatever the reply held: the URL asked for under [product_url]
    (when not empty), the sizes collected under [sizes_available] (when
    there are any), and under [image_url], when an image was extracted, the
    first of them, in which no blocklisted text stands. *)
Theorem endpoint_carries_the_page (u : url) (p : page) (response : option json)
    (now : string) (d : dict) :
  scrape_endpoint u p response now = Ok d ->
  (is_empty (href u) = false -> dict_get "product_url" d = Some (JStr (href u)))
  /\ (collect_sizes (size_texts p) <> [] ->
      dict_get "sizes_available" d = Some (JStrs (collect_sizes (size_texts p))))
  /\ (forall s rest,
        extract_images_from_page (elements p) u (text_of (first_text (title_nodes p)))
        = s :: rest ->
        dict_get "image_url" d = Some (JStr s) /\ clean_source s)
  /\ dict_get "source_domain" d = Some (JStr (host u)).
Proof.
  unfold scrape_endpoint, extract_raw_product_data.
  destruct (detect_brand u (content p)) as [brand|e0]; cbn [bind]; [|discriminate].
  set (raw := {| raw_title := _ |}).
  intros H.
  destruct (scrape_keeps_fields raw response now d H) as [Hdom Hkeep].
  destruct (scrape_ok_reply_is_object raw response now d H) as [cleaned ->].
  assert (Hread : forall k, k <> "scraped_at" -> k <> "source_domain" ->
                            k <> "category" -> k <> "gender_target" ->
                            k <> "currency" -> k <> "style_tags" ->
                            dict_get k d = dict_get k (enforce raw cleaned)).
  { intros k H1 H2 H3 H4 H5 H6. rewrite Hkeep by assumption.
    simpl. now apply after_enforce. }
  split; [|split; [|split; [|exact Hdom]]].
  - intros Hu. rewrite Hread by (intro; discriminate).
    rewrite enforce_product_url. subst raw. cbn. now rewrite Hu.
  - intros Hs. rewrite Hread by (intro; discriminate).
    rewrite enforce_sizes_available. subst raw. cbn.
    destruct (collect_sizes (size_texts p)); congruence.
  - intros s rest Himg. split.
    + rewrite Hread by (intro; discriminate).
      rewrite enforce_image_url. subst raw. cbn. now rewrite Himg.
    + pose proof (extracted_sources_clean (elements p) u
                    (text_of (first_text (title_nodes p)))) as Hc.
      rewrite Himg in Hc. now inversion Hc.
Qed.

Lemma endpoint_carries_the_page_witness :
  scrape_endpoint size_url sample_page hat_reply sample_time = Ok sample_page_record
  /\ ((is_empty (href size_url) = false ->
       dict_get "product_url" sample_page_record = Some (JStr (href size_url)))
      /\ (collect_sizes (size_texts sample_page) <> [] ->
          dict_get "sizes_available" sample_page_record
          = Some (JStrs (collect_sizes (size_texts sample_page))))
      /\ (forall s rest,
            extract_images_from_page (elements sample_page) size_url
              (text_of (first_text (title_nodes sample_page)))
            = s :: rest ->
            dict_get "image_url" sample_page_record = Some (JStr s) /\ clean_source s)
      /\ dict_get "source_domain" sample_page_record = Some (JStr (host size_url))).
Proof.
  split; [vm_compute; reflexivity|].
  apply (endpoint_carries_the_page size_url sample_page hat_reply sample_time
           sample_page_record).
  vm_compute. reflexivity.
Defined.

Example sample_page_is_read :
  dict_get "product_url" sample_page_record = Some (JStr (href size_url))
  /\ dict_get "sizes_available" sample_page_record = Some (JStrs ["29"; "M"; "S"])
  /\ dict_get "image_url" sample_page_record
     = Some (JStr "https://cdn.example.com/hero.jpg")
  /\ dict_get "brand" sample_page_record = Some (JStr "Size")
  /\ dict_get "price" sample_page_record = Some (JStr "20.00").
Proof. vm_compute. repeat split; reflexivity. Qed.
